(** * Statistical models for football betting analysis

    A shallow embedding of [ModelosEstatisticos] (src/modelos_estatisticos.py,
    duplicated verbatim in src/modelo_de_analise.py): the Poisson and
    Dixon-Coles scoreline distributions, the Monte Carlo simulator and the
    value calculator.

    Python floats are modelled by the real numbers of the Standard Library
    (exact arithmetic: no rounding, overflow or underflow), except in module
    [Binary64], which evaluates the value calculator on IEEE binary64
    numbers.  Python ints are [Z] where they may be negative and [nat] where
    the code only produces them from [range]. *)

From Stdlib Require Import Reals Lra Lia ZArith List String Permutation Sorted.
From Stdlib Require Import PrimFloat.
Import ListNotations.

(* A decimal float literal denotes the nearest binary64 number, as in Python. *)
Set Warnings "-inexact-float".

Open Scope string_scope.
Open Scope list_scope.
Open Scope R_scope.

(** ** Outcomes of a call *)

(** What a call does: it returns a value, it raises an exception (named by
    its Python class), or it returns floats that are nan or infinite.  The
    last case is what numpy's float division by zero gives (with a
    RuntimeWarning, not an exception); the real numbers cannot represent
    such values, so the outcome records only that it happened. *)
Inductive resultado (A : Type) : Type :=
| Retorna (a : A)
| Levanta (classe : string)
| NaoFinito.

Arguments Retorna {A} a.
Arguments Levanta {A} classe.
Arguments NaoFinito {A}.

(** ** Dictionaries keyed by scoreline *)

(** A scoreline [(gols_casa, gols_visitante)]. *)
Definition placar : Type := (nat * nat)%type.

Definition placar_eq_dec (a b : placar) : {a = b} + {a <> b}.
Proof. decide equality; apply Nat.eq_dec. Defined.

(** A Python dict from scorelines to floats: the items in insertion order. *)
Definition dict : Type := list (placar * R).

(** [d[k] = v]: an existing key keeps its position, a new key goes last. *)
Fixpoint dict_set (d : dict) (k : placar) (v : R) : dict :=
  match d with
  | [] => [(k, v)]
  | (k', v') :: d' =>
      if placar_eq_dec k k' then (k', v) :: d' else (k', v') :: dict_set d' k v
  end.

(** [d.get(k)]. *)
Fixpoint dict_get (d : dict) (k : placar) : option R :=
  match d with
  | [] => None
  | (k', v') :: d' => if placar_eq_dec k k' then Some v' else dict_get d' k
  end.

(** [range(n)] for a Python int [n]: empty when [n <= 0]. *)
Definition range (n : Z) : list nat := seq 0 (Z.to_nat n).

(** [sum(...)] of a list of floats. *)
Definition soma (l : list R) : R := fold_right Rplus 0 l.

(** ** The scoreline probability model *)

(** [scipy.stats.poisson.pmf(k, mu)] for [mu > 0], as the exact real
    [mu^k e^(-mu) / k!].  The binary64 number scipy returns is this value
    rounded: it is 0.0 where the exact value is below the smallest float
    (for instance at [mu = 1000]), and it is nan for a negative [mu].  No
    statement below relies on the function outside [mu > 0]. *)
Definition poisson_pmf (k : nat) (mu : R) : R :=
  mu ^ k * exp (- mu) / INR (fact k).

(** The two nested loops shared by both builders
    (lines 28-32 and 73-77): every cell of the grid, row by row, is stored
    under its scoreline and added to [total_prob].  [massa i j] is the
    expression assigned to [prob]. *)
Definition preencher_linha (massa : nat -> nat -> R) (max_gols : Z) (i : nat)
    (st : dict * R) : dict * R :=
  fold_left
    (fun st j =>
       let prob := massa i j in
       (dict_set (fst st) (i, j) prob, snd st + prob))
    (range (max_gols + 1)) st.

Definition preencher (massa : nat -> nat -> R) (max_gols : Z) : dict * R :=
  fold_left (fun st i => preencher_linha massa max_gols i st)
    (range (max_gols + 1)) ([], 0).

(** The normalisation loop (lines 35-36 and 80-81): every value is divided
    by [total_prob].  The operands are numpy floats, so a zero divisor
    raises nothing and leaves nan or an infinity in every cell.  The test
    is on the exact total: the rounded total of the code can be zero where
    the exact one is not (underflow), and conversely. *)
Definition normalizar (probabilidades : dict) (total_prob : R) : resultado dict :=
  match probabilidades with
  | [] => Retorna []
  | _ :: _ =>
      if Req_dec_T total_prob 0 then NaoFinito
      else Retorna (map (fun kv => (fst kv, snd kv / total_prob)) probabilidades)
  end.

(** [sorted(items, key=lambda item: item[1], reverse=True)]: a stable sort
    by value, largest first.  Items with equal values keep their relative
    order. *)
Fixpoint inserir (x : placar * R) (l : list (placar * R)) : list (placar * R) :=
  match l with
  | [] => [x]
  | y :: l' =>
      if Rlt_dec (snd x) (snd y) then y :: inserir x l' else x :: y :: l'
  end.

Definition sorted_reverse (itens : list (placar * R)) : list (placar * R) :=
  fold_right inserir [] itens.

(** The dict comprehension [{k: v for k, v in ...}]. *)
Definition dict_de_itens (itens : list (placar * R)) : dict :=
  fold_left (fun d kv => dict_set d (fst kv) (snd kv)) itens [].

(** Lines 34-41 and 79-86: normalise, sort, rebuild the dict. *)
Definition finalizar (st : dict * R) : resultado dict :=
  match normalizar (fst st) (snd st) with
  | Retorna probabilidades => Retorna (dict_de_itens (sorted_reverse probabilidades))
  | Levanta e => Levanta e
  | NaoFinito => NaoFinito
  end.

(** [prob] of line 30. *)
Definition massa_poisson (lambda_casa lambda_visitante : R) (i j : nat) : R :=
  poisson_pmf i lambda_casa * poisson_pmf j lambda_visitante.

Definition calcular_probabilidades_poisson
    (lambda_casa lambda_visitante : R) (max_gols : Z) : resultado dict :=
  finalizar (preencher (massa_poisson lambda_casa lambda_visitante) max_gols).

(** The local function [tau] of lines 58-68. *)
Definition tau (x y : nat) (lambda_x lambda_y rho : R) : R :=
  if ((x =? 0) && (y =? 0))%nat%bool then 1 - lambda_x * lambda_y * rho
  else if ((x =? 0) && (y =? 1))%nat%bool then 1 + lambda_x * rho
  else if ((x =? 1) && (y =? 0))%nat%bool then 1 + lambda_y * rho
  else if ((x =? 1) && (y =? 1))%nat%bool then 1 - rho
  else 1.

(** [prob] of line 75. *)
Definition massa_dixon_coles (lambda_casa lambda_visitante rho : R) (i j : nat) : R :=
  poisson_pmf i lambda_casa * poisson_pmf j lambda_visitante
  * tau i j lambda_casa lambda_visitante rho.

Definition calcular_probabilidades_dixon_coles
    (lambda_casa lambda_visitante rho : R) (max_gols : Z) : resultado dict :=
  finalizar (preencher (massa_dixon_coles lambda_casa lambda_visitante rho) max_gols).

(** ** numpy's global random generator *)

(** The state of [np.random]: the uniform draws in [[0, 1)] it will deliver,
    next one first.  The bit generator behind them is not modelled. *)
Definition gerador : Type := nat -> R.

(** A computation that reads and advances the global generator. *)
Definition np (A : Type) : Type := gerador -> resultado A * gerador.

Definition ret {A : Type} (a : A) : np A := fun g => (Retorna a, g).

Definition levantar {A : Type} (classe : string) : np A :=
  fun g => (Levanta classe, g).

Definition bind {A B : Type} (m : np A) (f : A -> np B) : np B :=
  fun g =>
    match m g with
    | (Retorna a, g') => f a g'
    | (Levanta e, g') => (Levanta e, g')
    | (NaoFinito, g') => (NaoFinito, g')
    end.

Notation "x <- m ;; k" := (bind m (fun x => k))
  (at level 61, m at next level, right associativity).

(** A [for] loop over [l] that threads the loop variables [s]. *)
Fixpoint para_cada {A S : Type} (l : list A) (f : S -> A -> np S) (s : S) : np S :=
  match l with
  | [] => ret s
  | x :: l' => s' <- f s x ;; para_cada l' f s'
  end.

(** [np.random.random()]: the next uniform draw. *)
Definition np_random_random : np R :=
  fun g => (Retorna (g 0%nat), fun k => g (S k)).

(** [random_sample(n)]: [n] successive draws. *)
Fixpoint random_sample (n : nat) : np (list R) :=
  match n with
  | O => ret []
  | S n' => u <- np_random_random ;; us <- random_sample n' ;; ret (u :: us)
  end.

Definition Rltb (x y : R) : bool := if Rlt_dec x y then true else false.

(** [p.cumsum()]. *)
Fixpoint cumsum_de (acc : R) (p : list R) : list R :=
  match p with
  | [] => []
  | x :: p' => (acc + x) :: cumsum_de (acc + x) p'
  end.

Definition cumsum (p : list R) : list R := cumsum_de 0 p.

(** [cdf.searchsorted(v, side='right')] on a non-decreasing [cdf]: the first
    index whose entry exceeds [v], the length when there is none. *)
Fixpoint searchsorted_right (cdf : list R) (v : R) : nat :=
  match cdf with
  | [] => O
  | x :: cdf' => if Rlt_dec v x then O else S (searchsorted_right cdf' v)
  end.

(** The tolerance of numpy's check that [p] sums to one:
    [sqrt(finfo(float64).eps)], that is [2^-26]. *)
Definition atol : R := / 2 ^ 26.

(** [np.random.choice(a, size=size, p=p)] for an int [a], as the legacy
    [RandomState.choice] is written: the checks on [a] and [p], then the
    normalised cumulative sums and one uniform draw per sample. *)
Definition np_random_choice (a : nat) (size : Z) (p : list R) : np (list nat) :=
  if ((a =? 0)%nat && negb (size =? 0)%Z)%bool then levantar "ValueError"
  else if negb (List.length p =? a)%nat then levantar "ValueError"
  else if existsb (fun x => Rltb x 0) p then levantar "ValueError"
  else if Rltb atol (Rabs (soma p - 1)) then levantar "ValueError"
  else
    match rev (cumsum p) with
    | [] => levantar "IndexError"
    | ultimo :: _ =>
        let cdf := map (fun c => c / ultimo) (cumsum p) in
        if (size <? 0)%Z then levantar "ValueError"
        else
          uniform_samples <- random_sample (Z.to_nat size) ;;
          ret (map (searchsorted_right cdf) uniform_samples)
    end.

(** ** The Monte Carlo simulator *)

(** The six counters of lines 117-122. *)
Record contagem : Type := Contagem {
  n_vitoria_casa : nat;
  n_empate : nat;
  n_vitoria_visitante : nat;
  n_over_2_5 : nat;
  n_btts : nat;
  n_gol_1_tempo : nat
}.

(** The dict returned at lines 148-155. *)
Record estimativas : Type := Estimativas {
  vitoria_casa : R;
  empate : R;
  vitoria_visitante : R;
  over_2_5 : R;
  btts : R;
  gol_1_tempo : R
}.

(** The counters after one sampled scoreline (lines 127-145); [u] is the
    draw of [np.random.random()]. *)
Definition atualizar (c : contagem) (gols_casa gols_visitante : nat) (u : R) : contagem :=
  {|
    n_vitoria_casa :=
      if (gols_visitante <? gols_casa)%nat
      then S (n_vitoria_casa c) else n_vitoria_casa c;
    n_empate :=
      if (gols_visitante <? gols_casa)%nat then n_empate c
      else if (gols_casa =? gols_visitante)%nat
           then S (n_empate c) else n_empate c;
    n_vitoria_visitante :=
      if (gols_visitante <? gols_casa)%nat then n_vitoria_visitante c
      else if (gols_casa =? gols_visitante)%nat then n_vitoria_visitante c
           else S (n_vitoria_visitante c);
    n_over_2_5 :=
      if Rltb (5 / 2) (INR (gols_casa + gols_visitante))
      then S (n_over_2_5 c) else n_over_2_5 c;
    n_btts :=
      if ((0 <? gols_casa)%nat && (0 <? gols_visitante)%nat)%bool
      then S (n_btts c) else n_btts c;
    n_gol_1_tempo :=
      if (Rltb u (1 / 2) && (0 <? gols_casa + gols_visitante)%nat)%bool
      then S (n_gol_1_tempo c) else n_gol_1_tempo c
  |}.

(** The body of the counting loop (lines 125-145) for one sampled index. *)
Definition contar (placares : list placar) (c : contagem) (idx : nat) : np contagem :=
  match nth_error placares idx with
  | None => levantar "IndexError"
  | Some (gols_casa, gols_visitante) =>
      u <- np_random_random ;;
      ret (atualizar c gols_casa gols_visitante u)
  end.

(** [k / n_simulacoes] for Python ints: true division, [ZeroDivisionError]
    on a zero divisor.  The quotient is the exact one; the code returns it
    rounded to binary64. *)
Definition dividir_int (k : nat) (n : Z) : np R :=
  if (n =? 0)%Z then levantar "ZeroDivisionError" else ret (INR k / IZR n).

(** Lines 148-155: the six proportions. *)
Definition resumir (c : contagem) (n_simulacoes : Z) : np estimativas :=
  vc <- dividir_int (n_vitoria_casa c) n_simulacoes ;;
  em <- dividir_int (n_empate c) n_simulacoes ;;
  vv <- dividir_int (n_vitoria_visitante c) n_simulacoes ;;
  ov <- dividir_int (n_over_2_5 c) n_simulacoes ;;
  bt <- dividir_int (n_btts c) n_simulacoes ;;
  g1 <- dividir_int (n_gol_1_tempo c) n_simulacoes ;;
  ret (Estimativas vc em vv ov bt g1).

(** Lines 110-155: sample the indices, count, divide. *)
Definition amostrar_e_contar (probs_placares : dict) (n_simulacoes : Z) : np estimativas :=
  let placares := map fst probs_placares in
  let probabilidades := map snd probs_placares in
  resultados <- np_random_choice (List.length placares) n_simulacoes probabilidades ;;
  c <- para_cada resultados (contar placares) (Contagem 0 0 0 0 0 0) ;;
  resumir c n_simulacoes.

(** [simular_monte_carlo]; [max_gols] keeps its default 5 in both calls of
    lines 105 and 107.  A distribution with nan or infinite cells makes
    [np.random.choice] raise [ValueError]. *)
Definition simular_monte_carlo (lambda_casa lambda_visitante : R)
    (n_simulacoes : Z) (rho : R) (usar_dixon_coles : bool) : np estimativas :=
  match (if usar_dixon_coles
         then calcular_probabilidades_dixon_coles lambda_casa lambda_visitante rho 5
         else calcular_probabilidades_poisson lambda_casa lambda_visitante 5) with
  | Levanta e => levantar e
  | NaoFinito => levantar "ValueError"
  | Retorna probs_placares => amostrar_e_contar probs_placares n_simulacoes
  end.

(** ** The value calculator *)

(** [calcular_valor_esperado], over the reals: the code returns this value
    up to the rounding of the product and of the difference. *)
Definition calcular_valor_esperado (probabilidade odd : R) : R :=
  probabilidade * odd - 1.

(** [calcular_kelly]; the operands are Python floats, for which [/] raises
    [ZeroDivisionError] on a zero divisor.  Over the reals: finite operands
    and exact operations; module [Binary64] below has the same function on
    binary64 numbers, infinities and nan included. *)
Definition calcular_kelly (probabilidade odd fracao : R) : resultado R :=
  let q := 1 - probabilidade in
  let b := odd - 1 in
  if Rlt_dec q (b * probabilidade) then
    if Req_dec_T b 0 then Levanta "ZeroDivisionError"
    else
      let kelly := (b * probabilidade - q) / b in
      Retorna (kelly * fracao)
  else Retorna 0.

(** The value calculator on IEEE binary64 numbers, the floats Python
    computes with. *)
Module Binary64.

Definition calcular_valor_esperado (probabilidade odd : float) : float :=
  (probabilidade * odd - 1)%float.

Definition calcular_kelly (probabilidade odd fracao : float) : resultado float :=
  let q := (1 - probabilidade)%float in
  let b := (odd - 1)%float in
  if PrimFloat.ltb q (b * probabilidade)%float then
    if PrimFloat.eqb b 0%float then Levanta "ZeroDivisionError"
    else
      let kelly := ((b * probabilidade - q) / b)%float in
      Retorna (kelly * fracao)%float
  else Retorna 0%float.

End Binary64.

(** ** The calculation methods of [AnalisadorTextoEstatistico]

    src/modelo_de_analise.py, lines 402-539 (the same methods are in
    src/analisador_texto.py, lines 186-323). *)
Module AnalisadorTextoEstatistico.

(** The attributes these methods read and write; [None] is Python's [None].
    [odds], [xg] and [gols_marcados] always hold their keys (lines 236-238),
    so each key is a field. *)
Record estado : Type := Estado {
  odds_casa : option R;
  odds_empate : option R;
  odds_visitante : option R;
  xg_casa : option R;
  xg_visitante : option R;
  gols_marcados_casa : option R;
  gols_marcados_visitante : option R;
  probabilidades_poisson : dict;
  probabilidades_monte_carlo : list (string * R)
}.

(** The truth value of [None] or a float: false for [None] and for zero. *)
Definition verdadeiro (x : option R) : bool :=
  match x with
  | None => false
  | Some v => if Req_dec_T v 0 then false else true
  end.

(** [a if a else b]. *)
Definition ou_senao (a b : option R) : option R :=
  if verdadeiro a then a else b.

(** [d.get(k, padrao)] and [k in d] on a dict keyed by strings. *)
Fixpoint get (d : list (string * R)) (k : string) (padrao : R) : R :=
  match d with
  | [] => padrao
  | (k', v) :: d' => if String.eqb k k' then v else get d' k padrao
  end.

Definition contem (d : list (string * R)) (k : string) : bool :=
  existsb (fun kv => String.eqb k (fst kv)) d.

Definition com_poisson (s : estado) (d : dict) : estado :=
  Estado (odds_casa s) (odds_empate s) (odds_visitante s)
    (xg_casa s) (xg_visitante s)
    (gols_marcados_casa s) (gols_marcados_visitante s)
    d (probabilidades_monte_carlo s).

(** The method [calcular_probabilidades_poisson] (lines 402-434): the value
    returned and the state after the call.  Its loops are those of the
    static builder with [max_gols = 5]. *)
Definition calcular_probabilidades_poisson (s : estado) : resultado (dict * estado) :=
  let lambda_casa := ou_senao (xg_casa s) (gols_marcados_casa s) in
  let lambda_visitante := ou_senao (xg_visitante s) (gols_marcados_visitante s) in
  if (negb (verdadeiro lambda_casa) || negb (verdadeiro lambda_visitante))%bool
  then Retorna ([], s)
  else
    match lambda_casa, lambda_visitante with
    | Some lc, Some lv =>
        (* the static builder: the method is not yet in scope here *)
        match calcular_probabilidades_poisson lc lv 5 with
        | Retorna d => Retorna (d, com_poisson s d)
        | Levanta e => Levanta e
        | NaoFinito => NaoFinito
        end
    | _, _ => Retorna ([], s)
    end.

(** Lines 441-442, 475-476 and 501-502: compute the Poisson dict when
    neither dict holds anything. *)
Definition garantir_probabilidades (s : estado) : resultado estado :=
  match probabilidades_poisson s, probabilidades_monte_carlo s with
  | [], [] =>
      match calcular_probabilidades_poisson s with
      | Retorna (_, s') => Retorna s'
      | Levanta e => Levanta e
      | NaoFinito => NaoFinito
      end
  | _, _ => Retorna s
  end.

(** The dict returned by [calcular_probabilidades_resultados]. *)
Record resultados : Type := Resultados {
  Casa : R;
  Empate : R;
  Visitante : R
}.

(** The body of the loop of lines 457-463. *)
Definition classificar (acc : resultados) (item : placar * R) : resultados :=
  let gols_casa := fst (fst item) in
  let gols_visitante := snd (fst item) in
  let prob := snd item in
  if (gols_visitante <? gols_casa)%nat
  then Resultados (Casa acc + prob) (Empate acc) (Visitante acc)
  else if (gols_casa =? gols_visitante)%nat
       then Resultados (Casa acc) (Empate acc + prob) (Visitante acc)
       else Resultados (Casa acc) (Empate acc) (Visitante acc + prob).

(** The loop of lines 457-463, from the three zeros of lines 453-455. *)
Definition somar_resultados (d : dict) : resultados :=
  fold_left classificar d (Resultados 0 0 0).

(** [calcular_probabilidades_resultados] (lines 436-469). *)
Definition calcular_probabilidades_resultados (s : estado)
    : resultado (resultados * estado) :=
  match garantir_probabilidades s with
  | Retorna s' =>
      match probabilidades_monte_carlo s' with
      | _ :: _ =>
          Retorna (Resultados
                     (get (probabilidades_monte_carlo s') "vitoria_casa" 0)
                     (get (probabilidades_monte_carlo s') "empate" 0)
                     (get (probabilidades_monte_carlo s') "vitoria_visitante" 0),
                   s')
      | [] => Retorna (somar_resultados (probabilidades_poisson s'), s')
      end
  | Levanta e => Levanta e
  | NaoFinito => NaoFinito
  end.

(** The dict returned by [calcular_valor_esperado]: a key is present when
    its odd is set and not zero. *)
Record valores_esperados : Type := ValoresEsperados {
  ev_casa : option R;
  ev_empate : option R;
  ev_visitante : option R
}.

(** The method [calcular_valor_esperado] (lines 517-539); [self.odds] always
    holds its three keys, so it is never an empty dict. *)
Definition calcular_valor_esperado (s : estado)
    : resultado (valores_esperados * estado) :=
  match calcular_probabilidades_resultados s with
  | Retorna (probabilidades, s') =>
      let ev (odd : option R) (prob : R) : option R :=
        match odd with
        | Some o => if verdadeiro odd then Some (prob * o - 1) else None
        | None => None
        end in
      Retorna (ValoresEsperados
                 (ev (odds_casa s') (Casa probabilidades))
                 (ev (odds_empate s') (Empate probabilidades))
                 (ev (odds_visitante s') (Visitante probabilidades)),
               s')
  | Levanta e => Levanta e
  | NaoFinito => NaoFinito
  end.

End AnalisadorTextoEstatistico.

(** ** Vocabulary of the statements *)

(** The scorelines of the grid in the order the loops visit them. *)
Definition grade (max_gols : Z) : list placar :=
  flat_map (fun i => map (fun j => (i, j)) (range (max_gols + 1)))
    (range (max_gols + 1)).

(** The grid with the mass of every cell. *)
Definition celulas (massa : nat -> nat -> R) (max_gols : Z) : dict :=
  map (fun k => (k, massa (fst k) (snd k))) (grade max_gols).

(** The dict and the value of [total_prob] when the two loops end. *)
Definition probabilidades_brutas (massa : nat -> nat -> R) (max_gols : Z) : dict :=
  fst (preencher massa max_gols).

Definition total_prob (massa : nat -> nat -> R) (max_gols : Z) : R :=
  snd (preencher massa max_gols).

(** The items after the normalisation loop, before they are sorted. *)
Definition normalizadas (massa : nat -> nat -> R) (max_gols : Z) : dict :=
  map (fun kv => (fst kv, snd kv / total_prob massa max_gols))
    (celulas massa max_gols).

(** The correction factor as the specification tabulates it. *)
Definition tau_especificacao (lambda_home lambda_away rho : R) (i j : nat) : R :=
  match i, j with
  | O, O => 1 - lambda_home * lambda_away * rho
  | O, S O => 1 + lambda_home * rho
  | S O, O => 1 + lambda_away * rho
  | S O, S O => 1 - rho
  | _, _ => 1
  end.

(** The order of the loops: lower home goals first, then lower away goals. *)
Definition antes_na_grade (a b : placar) : Prop :=
  (fst a < fst b)%nat \/ (fst a = fst b /\ (snd a < snd b)%nat).

(** The order of the returned items: larger value first, ties in the order
    of the loops. *)
Definition ordem_do_codigo (x y : placar * R) : Prop :=
  snd y < snd x \/ (snd x = snd y /\ antes_na_grade (fst x) (fst y)).

(** The ranking the specification asks for: larger value first, ties by
    lower combined goal count, then by lower home goals. *)
Definition ordem_da_especificacao (x y : placar * R) : Prop :=
  snd y < snd x \/
  (snd x = snd y /\
   ((fst (fst x) + snd (fst x) < fst (fst y) + snd (fst y))%nat \/
    ((fst (fst x) + snd (fst x) = fst (fst y) + snd (fst y))%nat /\
     (fst (fst x) <= fst (fst y))%nat))).

(** The builder returned a dict whose items are ordered by [ordem]. *)
Definition ordenado_por (ordem : placar * R -> placar * R -> Prop)
    (r : resultado dict) : Prop :=
  exists d, r = Retorna d /\ StronglySorted ordem d.



(** Two generator states that deliver the same first [n] draws. *)
Definition mesmos_sorteios (n : nat) (g1 g2 : gerador) : Prop :=
  forall k, (k < n)%nat -> g1 k = g2 k.

(** ** Dictionaries and the grid *)

Lemma dict_set_novo (d : dict) (k : placar) (v : R) :
  ~ In k (map fst d) -> dict_set d k v = d ++ [(k, v)].
Proof.
  induction d as [|[k' v'] d IH]; simpl; intros Hk; [reflexivity|].
  destruct (placar_eq_dec k k') as [->|_].
  - exfalso; apply Hk; now left.
  - rewrite IH; [reflexivity|]. intros Hin; apply Hk; now right.
Qed.

Lemma soma_app (l1 l2 : list R) : soma (l1 ++ l2) = soma l1 + soma l2.
Proof. induction l1; simpl; [lra | rewrite IHl1; lra]. Qed.

Lemma linha_spec (massa : nat -> nat -> R) (i : nat) (js : list nat) :
  forall (d : dict) (t : R),
    NoDup js ->
    (forall j, In j js -> ~ In (i, j) (map fst d)) ->
    fold_left
      (fun st j =>
         let prob := massa i j in
         (dict_set (fst st) (i, j) prob, snd st + prob)) js (d, t)
    = (d ++ map (fun j => ((i, j), massa i j)) js,
       t + soma (map (fun j => massa i j) js)).
Proof.
  induction js as [|j js IH]; intros d t Hnd Hfresh; simpl.
  - rewrite app_nil_r. f_equal. lra.
  - inversion Hnd as [|? ? Hj Hnd']; subst.
    rewrite dict_set_novo by (apply Hfresh; now left).
    rewrite IH; trivial.
    + rewrite <- app_assoc. simpl. f_equal. lra.
    + intros j' Hj' Hin. rewrite map_app, in_app_iff in Hin.
      destruct Hin as [Hin|[Heq|[]]].
      * apply (Hfresh j'); [now right | exact Hin].
      * simpl in Heq. injection Heq as ->. contradiction.
Qed.

Lemma grade_laco (massa : nat -> nat -> R) (js is_ : list nat) :
  NoDup js ->
  forall (d : dict) (t : R),
    NoDup is_ ->
    (forall i j, In i is_ -> ~ In (i, j) (map fst d)) ->
    fold_left
      (fun st i =>
         fold_left
           (fun st j =>
              let prob := massa i j in
              (dict_set (fst st) (i, j) prob, snd st + prob)) js st) is_ (d, t)
    = (d ++ flat_map (fun i => map (fun j => ((i, j), massa i j)) js) is_,
       t + soma (flat_map (fun i => map (fun j => massa i j) js) is_)).
Proof.
  intros Hjs. induction is_ as [|i is_ IH]; intros d t Hnd Hfresh; simpl.
  - rewrite app_nil_r. f_equal. lra.
  - inversion Hnd as [|? ? Hi Hnd']; subst.
    rewrite linha_spec; trivial.
    2:{ intros j _. apply Hfresh. now left. }
    rewrite IH; trivial.
    + rewrite <- app_assoc, soma_app. f_equal. lra.
    + intros i' j Hi' Hin. rewrite map_app, in_app_iff in Hin.
      destruct Hin as [Hin|Hin].
      * apply (Hfresh i' j); [now right | exact Hin].
      * rewrite map_map in Hin. simpl in Hin. apply in_map_iff in Hin.
        destruct Hin as [j' [Heq _]]. injection Heq as -> _. contradiction.
Qed.

Lemma map_flat_linhas {A C : Type} (f : A -> placar -> C) (h : nat -> nat -> A)
    (js is_ : list nat) :
  map (fun k => f (h (fst k) (snd k)) k)
      (flat_map (fun i => map (fun j => (i, j)) js) is_)
  = flat_map (fun i => map (fun j => f (h i j) (i, j)) js) is_.
Proof.
  induction is_ as [|i is_ IH]; [reflexivity|].
  cbn [flat_map]. rewrite map_app, IH, map_map. reflexivity.
Qed.

Lemma celulas_flat (massa : nat -> nat -> R) (max_gols : Z) :
  celulas massa max_gols =
  flat_map (fun i => map (fun j => ((i, j), massa i j)) (range (max_gols + 1)))
    (range (max_gols + 1)).
Proof.
  unfold celulas, grade.
  exact (map_flat_linhas (fun v (k : placar) => (k, v)) massa _ _).
Qed.

Lemma valores_celulas (massa : nat -> nat -> R) (max_gols : Z) :
  map snd (celulas massa max_gols) =
  flat_map (fun i => map (fun j => massa i j) (range (max_gols + 1)))
    (range (max_gols + 1)).
Proof.
  unfold celulas, grade. rewrite map_map. cbn [snd].
  exact (map_flat_linhas (fun v (_ : placar) => v) massa _ _).
Qed.

(** The two loops store the cells of the grid in row order and add up their
    masses. *)
Lemma preencher_spec (massa : nat -> nat -> R) (max_gols : Z) :
  preencher massa max_gols =
  (celulas massa max_gols, soma (map snd (celulas massa max_gols))).
Proof.
  unfold preencher, preencher_linha.
  rewrite grade_laco; try apply seq_NoDup.
  - rewrite valores_celulas, celulas_flat. simpl. f_equal. lra.
  - intros i j _ [].
Qed.

Lemma grade_prod (max_gols : Z) :
  grade max_gols = list_prod (range (max_gols + 1)) (range (max_gols + 1)).
Proof. unfold grade. now rewrite list_prod_as_flat_map. Qed.

Lemma In_range (n : Z) (k : nat) : In k (range n) <-> (Z.of_nat k < n)%Z.
Proof. unfold range. rewrite in_seq. lia. Qed.

Lemma In_grade (max_gols : Z) (i j : nat) :
  In (i, j) (grade max_gols) <->
  (Z.of_nat i <= max_gols)%Z /\ (Z.of_nat j <= max_gols)%Z.
Proof. rewrite grade_prod, in_prod_iff, !In_range. lia. Qed.

Lemma NoDup_prod {A B : Type} (l : list A) (l' : list B) :
  NoDup l -> NoDup l' -> NoDup (list_prod l l').
Proof.
  intros Hl Hl'. induction Hl as [|a l Ha Hl IH]; simpl; [constructor|].
  apply NoDup_app; trivial.
  - clear -Hl'. induction Hl' as [|b l' Hb Hl' IH]; simpl; constructor; trivial.
    rewrite in_map_iff. intros [b' [Heq Hb']]. injection Heq as ->. contradiction.
  - intros [a' b'] Hin Hin'. apply in_map_iff in Hin.
    destruct Hin as [b'' [Heq _]]. injection Heq as -> ->.
    apply in_prod_iff in Hin'. tauto.
Qed.

Lemma NoDup_grade (max_gols : Z) : NoDup (grade max_gols).
Proof. rewrite grade_prod. apply NoDup_prod; apply seq_NoDup. Qed.

Lemma chaves_celulas (massa : nat -> nat -> R) (max_gols : Z) :
  map fst (celulas massa max_gols) = grade max_gols.
Proof. unfold celulas. rewrite map_map. apply map_id. Qed.

Lemma grade_vazia (max_gols : Z) : (max_gols < 0)%Z -> grade max_gols = [].
Proof.
  intros H. unfold grade, range.
  replace (Z.to_nat (max_gols + 1)) with 0%nat by lia. reflexivity.
Qed.

Lemma grade_nao_vazia (max_gols : Z) : (0 <= max_gols)%Z -> grade max_gols <> [].
Proof.
  intros H Heq. assert (Hin : In (0%nat, 0%nat) (grade max_gols)) by (apply In_grade; lia).
  rewrite Heq in Hin. destruct Hin.
Qed.

Lemma dict_get_In (d : dict) (k : placar) (v : R) :
  NoDup (map fst d) -> In (k, v) d -> dict_get d k = Some v.
Proof.
  induction d as [|[k' v'] d IH]; simpl; intros Hnd Hin; [destruct Hin|].
  inversion Hnd as [|? ? Hk' Hnd']; subst.
  destruct (placar_eq_dec k k') as [->|Hne].
  - destruct Hin as [Heq|Hin]; [now injection Heq as -> |].
    exfalso. apply Hk'. apply (in_map fst) in Hin. exact Hin.
  - destruct Hin as [Heq|Hin]; [injection Heq as -> ->; contradiction|].
    now apply IH.
Qed.



Lemma dict_de_itens_acc (itens : list (placar * R)) :
  forall d : dict,
    NoDup (map fst (d ++ itens)) ->
    fold_left (fun d kv => dict_set d (fst kv) (snd kv)) itens d = d ++ itens.
Proof.
  induction itens as [|[k v] itens IH]; intros d Hnd; simpl.
  - now rewrite app_nil_r.
  - assert (Hfresh : ~ In k (map fst d)).
    { rewrite map_app in Hnd. simpl in Hnd. apply NoDup_remove_2 in Hnd.
      intros Hin. apply Hnd. apply in_or_app. now left. }
    rewrite dict_set_novo by exact Hfresh.
    rewrite IH; rewrite <- app_assoc; [reflexivity | exact Hnd].
Qed.

Lemma dict_de_itens_NoDup (itens : list (placar * R)) :
  NoDup (map fst itens) -> dict_de_itens itens = itens.
Proof. intros H. unfold dict_de_itens. now rewrite dict_de_itens_acc. Qed.

(** ** The stable sort *)

Lemma inserir_perm (x : placar * R) (l : list (placar * R)) :
  Permutation (inserir x l) (x :: l).
Proof.
  induction l as [|y l IH]; simpl; [reflexivity|].
  destruct (Rlt_dec (snd x) (snd y)); [|reflexivity].
  rewrite IH. apply perm_swap.
Qed.

Lemma sorted_reverse_perm (l : list (placar * R)) :
  Permutation (sorted_reverse l) l.
Proof.
  induction l as [|x l IH]; simpl; [reflexivity|].
  rewrite inserir_perm. now constructor.
Qed.

Lemma inserir_ordenado (antes : placar -> placar -> Prop)
    (x : placar * R) (l : list (placar * R)) :
  let ordem x y := snd y < snd x \/ (snd x = snd y /\ antes (fst x) (fst y)) in
  (forall a b c, ordem a b -> ordem b c -> ordem a c) ->
  Forall (fun y => antes (fst x) (fst y)) l ->
  StronglySorted ordem l ->
  StronglySorted ordem (inserir x l).
Proof.
  intros ordem Htrans Hx Hl.
  induction Hl as [|y l Hl IH Hy]; simpl.
  - repeat constructor.
  - inversion Hx as [|? ? Hxy Hxl]; subst.
    destruct (Rlt_dec (snd x) (snd y)) as [Hlt|Hge].
    + constructor; [now apply IH|].
      eapply Permutation_Forall; [symmetry; apply inserir_perm|].
      constructor; [now left | exact Hy].
    + assert (Hxy' : ordem x y).
      { unfold ordem. destruct (Rlt_dec (snd y) (snd x)); [now left|].
        right. split; [lra | exact Hxy]. }
      constructor; [now constructor|]. constructor; [exact Hxy'|].
      eapply Forall_impl; [|exact Hy]. intros z Hz. now apply (Htrans x y z).
Qed.

(** A list whose keys are ordered by [antes] comes out of the sort ordered
    by value, with equal values still ordered by [antes]. *)
Lemma sorted_reverse_ordenado (antes : placar -> placar -> Prop)
    (l : list (placar * R)) :
  let ordem x y := snd y < snd x \/ (snd x = snd y /\ antes (fst x) (fst y)) in
  (forall a b c, antes a b -> antes b c -> antes a c) ->
  StronglySorted (fun x y => antes (fst x) (fst y)) l ->
  StronglySorted ordem (sorted_reverse l).
Proof.
  intros ordem Htrans Hl.
  assert (Hord : forall a b c, ordem a b -> ordem b c -> ordem a c).
  { unfold ordem. intros a b c [H1|[H1 H1']] [H2|[H2 H2']].
    - left; lra.
    - left; lra.
    - left; lra.
    - right. split; [lra | now apply (Htrans _ (fst b))]. }
  induction Hl as [|x l Hl IH Hx]; simpl; [constructor|].
  apply inserir_ordenado; trivial.
  eapply Permutation_Forall; [symmetry; apply sorted_reverse_perm | exact Hx].
Qed.

(** ** What the builders return *)

Lemma brutas_celulas (massa : nat -> nat -> R) (max_gols : Z) :
  probabilidades_brutas massa max_gols = celulas massa max_gols.
Proof. unfold probabilidades_brutas. now rewrite preencher_spec. Qed.

Lemma total_prob_soma (massa : nat -> nat -> R) (max_gols : Z) :
  total_prob massa max_gols = soma (map snd (celulas massa max_gols)).
Proof. unfold total_prob. now rewrite preencher_spec. Qed.

Lemma chaves_normalizadas (massa : nat -> nat -> R) (max_gols : Z) :
  map fst (normalizadas massa max_gols) = grade max_gols.
Proof.
  unfold normalizadas. rewrite map_map. cbn [fst]. apply chaves_celulas.
Qed.

Lemma NoDup_ordenadas (massa : nat -> nat -> R) (max_gols : Z) :
  NoDup (map fst (sorted_reverse (normalizadas massa max_gols))).
Proof.
  eapply Permutation_NoDup.
  - apply Permutation_map. symmetry. apply sorted_reverse_perm.
  - rewrite chaves_normalizadas. apply NoDup_grade.
Qed.

Lemma finalizar_retorna (massa : nat -> nat -> R) (max_gols : Z) :
  total_prob massa max_gols <> 0 ->
  finalizar (preencher massa max_gols) =
  Retorna (sorted_reverse (normalizadas massa max_gols)).
Proof.
  intros Ht. unfold finalizar, normalizar.
  fold (probabilidades_brutas massa max_gols) (total_prob massa max_gols).
  rewrite brutas_celulas.
  destruct (celulas massa max_gols) as [|c cs] eqn:E.
  - exfalso. apply Ht. rewrite total_prob_soma, E. reflexivity.
  - destruct (Req_dec_T (total_prob massa max_gols) 0) as [H0|_]; [contradiction|].
    rewrite <- E. fold (normalizadas massa max_gols).
    now rewrite dict_de_itens_NoDup by apply NoDup_ordenadas.
Qed.

Lemma finalizar_vazio (massa : nat -> nat -> R) (max_gols : Z) :
  (max_gols < 0)%Z -> finalizar (preencher massa max_gols) = Retorna [].
Proof.
  intros H. unfold finalizar, normalizar.
  fold (probabilidades_brutas massa max_gols).
  rewrite brutas_celulas. unfold celulas. now rewrite grade_vazia.
Qed.

Lemma finalizar_nao_finito (massa : nat -> nat -> R) (max_gols : Z) :
  (0 <= max_gols)%Z -> total_prob massa max_gols = 0 ->
  finalizar (preencher massa max_gols) = NaoFinito.
Proof.
  intros H Ht. unfold finalizar, normalizar.
  fold (probabilidades_brutas massa max_gols) (total_prob massa max_gols).
  rewrite brutas_celulas.
  destruct (celulas massa max_gols) as [|c cs] eqn:E.
  - exfalso. apply (grade_nao_vazia max_gols H).
    rewrite <- (chaves_celulas massa), E. reflexivity.
  - destruct (Req_dec_T (total_prob massa max_gols) 0) as [_|Hne]; [reflexivity|].
    contradiction.
Qed.

(** The builders never raise. *)
Lemma finalizar_nao_levanta (st : dict * R) (classe : string) :
  finalizar st <> Levanta classe.
Proof.
  unfold finalizar, normalizar. destruct (fst st); [discriminate|].
  destruct (Req_dec_T (snd st) 0); discriminate.
Qed.

Lemma In_normalizadas (massa : nat -> nat -> R) (max_gols : Z) (kv : placar * R) :
  In kv (normalizadas massa max_gols) <->
  In (fst kv) (grade max_gols) /\
  snd kv = massa (fst (fst kv)) (snd (fst kv)) / total_prob massa max_gols.
Proof.
  unfold normalizadas, celulas. rewrite map_map. cbn [fst snd].
  rewrite in_map_iff. split.
  - intros [k [<- Hk]]. cbn [fst snd]. now split.
  - intros [Hk Hv]. exists (fst kv). split; [|exact Hk].
    destruct kv as [k v]. cbn [fst snd] in *. now rewrite Hv.
Qed.

Lemma In_ordenadas (massa : nat -> nat -> R) (max_gols : Z) (kv : placar * R) :
  In kv (sorted_reverse (normalizadas massa max_gols)) <->
  In (fst kv) (grade max_gols) /\
  snd kv = massa (fst (fst kv)) (snd (fst kv)) / total_prob massa max_gols.
Proof.
  rewrite <- In_normalizadas. split; apply Permutation_in.
  - apply sorted_reverse_perm.
  - symmetry. apply sorted_reverse_perm.
Qed.

Lemma get_ordenadas (massa : nat -> nat -> R) (max_gols : Z) (i j : nat) :
  (Z.of_nat i <= max_gols)%Z -> (Z.of_nat j <= max_gols)%Z ->
  dict_get (sorted_reverse (normalizadas massa max_gols)) (i, j) =
  Some (massa i j / total_prob massa max_gols).
Proof.
  intros Hi Hj. apply dict_get_In; [apply NoDup_ordenadas|].
  apply In_ordenadas. cbn [fst snd]. split; [|reflexivity].
  apply In_grade. now split.
Qed.


Lemma soma_perm (l l' : list R) : Permutation l l' -> soma l = soma l'.
Proof. induction 1; simpl; lra. Qed.

Lemma soma_dividida (l : list R) (t : R) :
  soma (map (fun x => x / t) l) = soma l / t.
Proof. induction l; simpl; [lra | rewrite IHl; lra]. Qed.

Lemma soma_ordenadas (massa : nat -> nat -> R) (max_gols : Z) :
  total_prob massa max_gols <> 0 ->
  soma (map snd (sorted_reverse (normalizadas massa max_gols))) = 1.
Proof.
  intros Ht.
  rewrite (soma_perm _ (map snd (normalizadas massa max_gols)))
    by (apply Permutation_map, sorted_reverse_perm).
  unfold normalizadas. rewrite map_map. cbn [snd].
  rewrite <- (map_map snd (fun x => x / total_prob massa max_gols)).
  rewrite soma_dividida, <- total_prob_soma. now field.
Qed.

(** ** Positivity of the masses *)

Lemma poisson_pmf_pos (k : nat) (mu : R) : 0 < mu -> 0 < poisson_pmf k mu.
Proof.
  intros H. unfold poisson_pmf. apply Rdiv_lt_0_compat.
  - apply Rmult_lt_0_compat; [now apply pow_lt | apply exp_pos].
  - apply INR_fact_lt_0.
Qed.

Lemma soma_nao_negativa (l : list R) : Forall (fun x => 0 <= x) l -> 0 <= soma l.
Proof. induction 1; simpl; lra. Qed.

Lemma soma_cota (l : list R) (x : R) :
  Forall (fun y => 0 <= y) l -> In x l -> x <= soma l.
Proof.
  induction 1 as [|y l Hy Hl IH]; simpl; [tauto|].
  intros [->|Hin].
  - pose proof (soma_nao_negativa l Hl). lra.
  - specialize (IH Hin). lra.
Qed.

Lemma In_valores_celulas (massa : nat -> nat -> R) (max_gols : Z) (v : R) :
  In v (map snd (celulas massa max_gols)) <->
  exists i j, (Z.of_nat i <= max_gols)%Z /\ (Z.of_nat j <= max_gols)%Z /\
              v = massa i j.
Proof.
  unfold celulas. rewrite map_map. cbn [snd]. rewrite in_map_iff. split.
  - intros [[i j] [<- Hk]]. apply In_grade in Hk. exists i, j. tauto.
  - intros [i [j [Hi [Hj ->]]]]. exists (i, j). split; [reflexivity|].
    apply In_grade. tauto.
Qed.

(** With no negative mass, the total dominates every cell. *)
Lemma total_prob_cota (massa : nat -> nat -> R) (max_gols : Z) (i j : nat) :
  (forall i j, 0 <= massa i j) ->
  (Z.of_nat i <= max_gols)%Z -> (Z.of_nat j <= max_gols)%Z ->
  massa i j <= total_prob massa max_gols.
Proof.
  intros Hpos Hi Hj. rewrite total_prob_soma. apply soma_cota.
  - apply Forall_forall. intros v Hv. apply In_valores_celulas in Hv.
    destruct Hv as [i' [j' [_ [_ ->]]]]. apply Hpos.
  - apply In_valores_celulas. exists i, j. tauto.
Qed.

Lemma massa_poisson_pos (a b : R) (i j : nat) :
  0 < a -> 0 < b -> 0 < massa_poisson a b i j.
Proof.
  intros Ha Hb. unfold massa_poisson.
  apply Rmult_lt_0_compat; now apply poisson_pmf_pos.
Qed.

Lemma total_poisson_pos (a b : R) (max_gols : Z) :
  0 < a -> 0 < b -> (0 <= max_gols)%Z ->
  0 < total_prob (massa_poisson a b) max_gols.
Proof.
  intros Ha Hb HN.
  pose proof (massa_poisson_pos a b 0 0 Ha Hb) as H00.
  pose proof (total_prob_cota (massa_poisson a b) max_gols 0 0) as Hc.
  assert (massa_poisson a b 0 0 <= total_prob (massa_poisson a b) max_gols).
  { apply Hc; try (simpl; lia).
    intros i j. left. now apply massa_poisson_pos. }
  lra.
Qed.

(** ** Concrete grids and masses *)



Lemma poisson_pmf_0 (mu : R) : poisson_pmf 0 mu = exp (- mu).
Proof. unfold poisson_pmf. simpl. field. Qed.

Lemma poisson_pmf_1 (mu : R) : poisson_pmf 1 mu = mu * exp (- mu).
Proof. unfold poisson_pmf. simpl. field. Qed.

Lemma poisson_pmf_2 (mu : R) : poisson_pmf 2 mu = mu * mu * exp (- mu) / 2.
Proof. unfold poisson_pmf. simpl. field. Qed.

Lemma tau_tabela (a b rho : R) (i j : nat) :
  tau i j a b rho = tau_especificacao a b rho i j.
Proof. destruct i as [|[|i]], j as [|[|j]]; reflexivity. Qed.

Lemma tau_rho_0 (a b : R) (i j : nat) : tau i j a b 0 = 1.
Proof. rewrite tau_tabela. destruct i as [|[|i]], j as [|[|j]]; simpl; lra. Qed.

Lemma tau_nao_negativo (a b rho : R) (i j : nat) :
  0 <= 1 - a * b * rho -> 0 <= 1 + a * rho -> 0 <= 1 + b * rho -> 0 <= 1 - rho ->
  0 <= tau i j a b rho.
Proof.
  intros H00 H01 H10 H11. rewrite tau_tabela.
  destruct i as [|[|i]], j as [|[|j]]; simpl; lra.
Qed.

Lemma massa_dixon_coles_nao_negativa (a b rho : R) (i j : nat) :
  0 < a -> 0 < b ->
  0 <= 1 - a * b * rho -> 0 <= 1 + a * rho -> 0 <= 1 + b * rho -> 0 <= 1 - rho ->
  0 <= massa_dixon_coles a b rho i j.
Proof.
  intros Ha Hb H00 H01 H10 H11. unfold massa_dixon_coles.
  apply Rmult_le_pos; [|now apply tau_nao_negativo].
  left. apply Rmult_lt_0_compat; now apply poisson_pmf_pos.
Qed.

(** With no negative correction factor the total mass is positive, unless
    the grid is the single cell [(0, 0)] and its factor vanishes. *)
Lemma total_dixon_coles_pos (a b rho : R) (max_gols : Z) :
  0 < a -> 0 < b -> (0 <= max_gols)%Z ->
  0 <= 1 - a * b * rho -> 0 <= 1 + a * rho -> 0 <= 1 + b * rho -> 0 <= 1 - rho ->
  (max_gols = 0%Z -> a * b * rho <> 1) ->
  0 < total_prob (massa_dixon_coles a b rho) max_gols.
Proof.
  intros Ha Hb HN H00 H01 H10 H11 Hsingle.
  assert (Hcota : forall i j, (Z.of_nat i <= max_gols)%Z -> (Z.of_nat j <= max_gols)%Z ->
                    massa_dixon_coles a b rho i j
                    <= total_prob (massa_dixon_coles a b rho) max_gols).
  { intros i j. apply total_prob_cota.
    intros i' j'. now apply massa_dixon_coles_nao_negativa. }
  assert (Hp : forall i j, 0 < poisson_pmf i a * poisson_pmf j b).
  { intros i j. apply Rmult_lt_0_compat; now apply poisson_pmf_pos. }
  destruct (Z.eq_dec max_gols 0) as [H0|H0].
  - specialize (Hcota 0%nat 0%nat ltac:(simpl; lia) ltac:(simpl; lia)).
    specialize (Hsingle H0). unfold massa_dixon_coles at 1 in Hcota.
    rewrite tau_tabela in Hcota. simpl in Hcota.
    assert (0 < 1 - a * b * rho) by lra.
    pose proof (Rmult_lt_0_compat _ _ (Hp 0%nat 0%nat) H). lra.
  - destruct (Req_dec_T rho 1) as [->|Hrho].
    + specialize (Hcota 0%nat 1%nat ltac:(simpl; lia) ltac:(simpl; lia)).
      unfold massa_dixon_coles at 1 in Hcota. rewrite tau_tabela in Hcota.
      simpl in Hcota.
      assert (0 < 1 + a * 1) by lra.
      pose proof (Rmult_lt_0_compat _ _ (Hp 0%nat 1%nat) H). lra.
    + specialize (Hcota 1%nat 1%nat ltac:(simpl; lia) ltac:(simpl; lia)).
      unfold massa_dixon_coles at 1 in Hcota. rewrite tau_tabela in Hcota.
      simpl in Hcota.
      assert (0 < 1 - rho) by lra.
      pose proof (Rmult_lt_0_compat _ _ (Hp 1%nat 1%nat) H). lra.
Qed.


Lemma preencher_ext (m1 m2 : nat -> nat -> R) (max_gols : Z) :
  (forall i j, m1 i j = m2 i j) -> preencher m1 max_gols = preencher m2 max_gols.
Proof.
  intros H. rewrite !preencher_spec.
  assert (Hc : celulas m1 max_gols = celulas m2 max_gols).
  { unfold celulas. apply map_ext. intros k. now rewrite H. }
  now rewrite Hc.
Qed.




(** ** Normalisation (C1) *)




(** ** The correction factor (C2) *)

(** C2: when the two loops end, the dict holds for every cell [(i, j)] of
    the grid the product [P(i; lambda_casa) * P(j; lambda_visitante)]
    times [tau(i, j)], where [P(k; mu) = mu^k e^(-mu) / k!] and [tau] is as
    the specification tabulates it. *)
Theorem massa_dixon_coles_tau (a b rho : R) (max_gols : Z) (i j : nat) :
  (Z.of_nat i <= max_gols)%Z -> (Z.of_nat j <= max_gols)%Z ->
  dict_get (probabilidades_brutas (massa_dixon_coles a b rho) max_gols) (i, j) =
    Some (a ^ i * exp (- a) / INR (fact i) * (b ^ j * exp (- b) / INR (fact j))
          * tau_especificacao a b rho i j) /\
  tau i j a b rho = tau_especificacao a b rho i j.
Proof.
  intros Hi Hj. split; [|apply tau_tabela].
  rewrite brutas_celulas. apply dict_get_In.
  - rewrite chaves_celulas. apply NoDup_grade.
  - unfold celulas. apply in_map_iff. exists (i, j). split.
    + cbn [fst snd]. unfold massa_dixon_coles, poisson_pmf.
      now rewrite tau_tabela.
    + apply In_grade. now split.
Qed.

Lemma massa_dixon_coles_tau_exemplo :
  dict_get (probabilidades_brutas (massa_dixon_coles (9 / 5) (6 / 5) (- (1 / 10))) 5)
    (0, 1)%nat =
  Some ((9 / 5) ^ 0 * exp (- (9 / 5)) / INR (fact 0)
        * ((6 / 5) ^ 1 * exp (- (6 / 5)) / INR (fact 1))
        * (1 + 9 / 5 * - (1 / 10))).
Proof.
  apply (massa_dixon_coles_tau (9 / 5) (6 / 5) (- (1 / 10)) 5 0 1); simpl; lia.
Defined.

(** ** Zero correlation (C5) *)

Lemma massa_dixon_coles_rho_0 (a b : R) (i j : nat) :
  massa_dixon_coles a b 0 i j = massa_poisson a b i j.
Proof. unfold massa_dixon_coles, massa_poisson. rewrite tau_rho_0. ring. Qed.

(** C5: for [lambda_casa > 0] and [lambda_visitante > 0],
    [calcular_probabilidades_dixon_coles] with [rho = 0] returns the very
    dict [calcular_probabilidades_poisson] returns, so the two agree at
    every scoreline. *)
Theorem dixon_coles_rho_0 (a b : R) (max_gols : Z) :
  0 < a -> 0 < b ->
  exists d,
    calcular_probabilidades_poisson a b max_gols = Retorna d /\
    calcular_probabilidades_dixon_coles a b 0 max_gols = Retorna d /\
    forall i j,
      (Z.of_nat i <= max_gols)%Z -> (Z.of_nat j <= max_gols)%Z ->
      exists v, dict_get d (i, j) = Some v.
Proof.
  intros Ha Hb.
  assert (Heq : calcular_probabilidades_dixon_coles a b 0 max_gols =
                calcular_probabilidades_poisson a b max_gols).
  { unfold calcular_probabilidades_dixon_coles, calcular_probabilidades_poisson.
    f_equal. apply preencher_ext. apply massa_dixon_coles_rho_0. }
  rewrite Heq. unfold calcular_probabilidades_poisson.
  destruct (Z_lt_le_dec max_gols 0) as [Hneg|Hpos].
  - exists []. rewrite finalizar_vazio by exact Hneg.
    repeat split. intros i j Hi Hj. lia.
  - exists (sorted_reverse (normalizadas (massa_poisson a b) max_gols)).
    rewrite finalizar_retorna
      by (apply Rgt_not_eq; now apply total_poisson_pos).
    repeat split. intros i j Hi Hj. eexists. now apply get_ordenadas.
Qed.

Lemma dixon_coles_rho_0_exemplo :
  exists d,
    calcular_probabilidades_poisson (9 / 5) (6 / 5) 5 = Retorna d /\
    calcular_probabilidades_dixon_coles (9 / 5) (6 / 5) 0 5 = Retorna d /\
    forall i j,
      (Z.of_nat i <= 5)%Z -> (Z.of_nat j <= 5)%Z ->
      exists v, dict_get d (i, j) = Some v.
Proof. apply (dixon_coles_rho_0 (9 / 5) (6 / 5) 5); lra. Defined.

(** ** Range of the cell values (C8) *)




(** ** Order of the returned items (C7) *)

Lemma StronglySorted_app {A : Type} (R : A -> A -> Prop) (l1 l2 : list A) :
  StronglySorted R l1 -> StronglySorted R l2 ->
  (forall x y, In x l1 -> In y l2 -> R x y) ->
  StronglySorted R (l1 ++ l2).
Proof.
  intros H1 H2 H12. induction H1 as [|x l1 H1 IH Hx]; simpl; [exact H2|].
  constructor.
  - apply IH. intros x' y Hx' Hy. apply H12; [now right | exact Hy].
  - apply Forall_app. split; [exact Hx|].
    apply Forall_forall. intros y Hy. apply H12; [now left | exact Hy].
Qed.

Lemma StronglySorted_seq (a n : nat) : StronglySorted lt (seq a n).
Proof.
  revert a. induction n as [|n IH]; intros a; simpl; constructor.
  - apply IH.
  - apply Forall_forall. intros k Hk. apply in_seq in Hk. lia.
Qed.

Lemma StronglySorted_map_inv {A B : Type} (R : B -> B -> Prop) (f : A -> B)
    (l : list A) :
  StronglySorted R (map f l) -> StronglySorted (fun x y => R (f x) (f y)) l.
Proof.
  induction l as [|x l IH]; simpl; intros H; [constructor|].
  apply StronglySorted_inv in H. destruct H as [Hl Hx].
  constructor; [now apply IH|].
  rewrite Forall_map in Hx. exact Hx.
Qed.

Lemma antes_na_grade_trans (a b c : placar) :
  antes_na_grade a b -> antes_na_grade b c -> antes_na_grade a c.
Proof. unfold antes_na_grade. lia. Qed.

Lemma grade_ordenada (max_gols : Z) : StronglySorted antes_na_grade (grade max_gols).
Proof.
  unfold grade, range. generalize (Z.to_nat (max_gols + 1)). intros n.
  assert (Hlinha : forall i js, StronglySorted lt js ->
            StronglySorted antes_na_grade (map (fun j => (i, j)) js)).
  { intros i js Hjs.
    induction Hjs as [|j js Hjs IHj Hj]; simpl; constructor; trivial.
    rewrite Forall_map. eapply Forall_impl; [|exact Hj].
    intros j' Hlt. right. simpl. now split. }
  assert (Hgen : forall is_, StronglySorted lt is_ ->
            StronglySorted antes_na_grade
              (flat_map (fun i => map (fun j => (i, j)) (seq 0 n)) is_)).
  { intros is_ His. induction His as [|i is_ His IH Hi]; simpl; [constructor|].
    apply StronglySorted_app; trivial.
    - apply Hlinha. apply StronglySorted_seq.
    - intros x y Hx Hy. apply in_map_iff in Hx. destruct Hx as [j [<- _]].
      apply in_flat_map in Hy. destruct Hy as [i' [Hi' Hy]].
      apply in_map_iff in Hy. destruct Hy as [j' [<- _]].
      rewrite Forall_forall in Hi. specialize (Hi _ Hi').
      left. exact Hi. }
  apply Hgen. apply StronglySorted_seq.
Qed.

(** The returned items are ordered by value, largest first, and items of
    equal value are in the order of the loops. *)
Lemma ordenadas_ordem_do_codigo (massa : nat -> nat -> R) (max_gols : Z) :
  StronglySorted ordem_do_codigo (sorted_reverse (normalizadas massa max_gols)).
Proof.
  apply (sorted_reverse_ordenado antes_na_grade).
  - exact antes_na_grade_trans.
  - apply StronglySorted_map_inv. rewrite chaves_normalizadas.
    apply grade_ordenada.
Qed.

Lemma StronglySorted_duas_ordens {A : Type} (R1 R2 : A -> A -> Prop)
    (l : list A) (x y : A) :
  StronglySorted R1 l -> StronglySorted R2 l -> In x l -> In y l ->
  x = y \/ (R1 x y /\ R2 x y) \/ (R1 y x /\ R2 y x).
Proof.
  intros H1. induction H1 as [|z l H1 IH Hz1]; intros H2 Hx Hy; [destruct Hx|].
  apply StronglySorted_inv in H2. destruct H2 as [H2 Hz2].
  rewrite Forall_forall in Hz1, Hz2.
  destruct Hx as [->|Hx], Hy as [->|Hy].
  - now left.
  - right; left. split; [now apply Hz1 | now apply Hz2].
  - right; right. split; [now apply Hz1 | now apply Hz2].
  - now apply IH.
Qed.

Lemma ordenado_por_ordenadas (massa : nat -> nat -> R) (max_gols : Z) :
  ((0 <= max_gols)%Z -> total_prob massa max_gols <> 0) ->
  ordenado_por ordem_do_codigo (finalizar (preencher massa max_gols)).
Proof.
  intros Ht. destruct (Z_lt_le_dec max_gols 0) as [Hneg|Hpos].
  - exists []. split; [now apply finalizar_vazio | constructor].
  - exists (sorted_reverse (normalizadas massa max_gols)). split.
    + apply finalizar_retorna. now apply Ht.
    + apply ordenadas_ordem_do_codigo.
Qed.

(** C7, as stated, fails: the items are sorted by value alone and ties keep
    the order of the loops.  With [lambda_casa = lambda_visitante = 1] and
    [max_gols = 2] the scorelines [(1, 2)] and [(2, 0)] have the same value
    ([e^-2 / 2] over [total_prob]); the loops visit [(1, 2)] first, so it
    comes first in the returned dict although its combined goal count, 3,
    is larger than 2. *)
Lemma poisson_empate_fora_da_ordem :
  ~ ordenado_por ordem_da_especificacao (calcular_probabilidades_poisson 1 1 2).
Proof.
  intros [d [Hd Hspec]].
  assert (Ht : 0 < total_prob (massa_poisson 1 1) 2)
    by (apply total_poisson_pos; [lra | lra | lia]).
  unfold calcular_probabilidades_poisson in Hd.
  rewrite finalizar_retorna in Hd by lra. injection Hd as <-.
  pose proof (ordenadas_ordem_do_codigo (massa_poisson 1 1) 2) as Hcod.
  set (v := massa_poisson 1 1 1 2 / total_prob (massa_poisson 1 1) 2).
  assert (Hx : In ((1, 2)%nat, v) (sorted_reverse (normalizadas (massa_poisson 1 1) 2))).
  { apply In_ordenadas. cbn [fst snd]. split; [apply In_grade; simpl; lia | reflexivity]. }
  assert (Hy : In ((2, 0)%nat, v) (sorted_reverse (normalizadas (massa_poisson 1 1) 2))).
  { apply In_ordenadas. cbn [fst snd]. split; [apply In_grade; simpl; lia|].
    unfold v, massa_poisson.
    rewrite poisson_pmf_0, poisson_pmf_1, poisson_pmf_2. f_equal. ring. }
  destruct (StronglySorted_duas_ordens _ _ _ _ _ Hcod Hspec Hx Hy)
    as [Heq | [[_ Hs] | [Hc _]]].
  - discriminate Heq.
  - unfold ordem_da_especificacao in Hs. cbn [fst snd] in Hs.
    destruct Hs as [Hs | [_ Hs]]; [lra | lia].
  - unfold ordem_do_codigo, antes_na_grade in Hc. cbn [fst snd] in Hc.
    destruct Hc as [Hc | [_ Hc]]; [lra | lia].
Qed.

(** C7, amended: the items returned by the builders are sorted by value,
    largest first, and items of equal value are in the order of the loops:
    lower home goals first, then lower away goals.  (For the Dixon-Coles
    builder, whenever [total_prob] is not zero.) *)
Theorem itens_em_ordem_do_codigo (a b rho : R) (max_gols : Z) :
  0 < a -> 0 < b ->
  ordenado_por ordem_do_codigo (calcular_probabilidades_poisson a b max_gols) /\
  (total_prob (massa_dixon_coles a b rho) max_gols <> 0 ->
   ordenado_por ordem_do_codigo
     (calcular_probabilidades_dixon_coles a b rho max_gols)).
Proof.
  intros Ha Hb. split.
  - apply ordenado_por_ordenadas. intros HN.
    apply Rgt_not_eq. now apply total_poisson_pos.
  - intros Ht. apply ordenado_por_ordenadas. intros _. exact Ht.
Qed.

Lemma itens_em_ordem_do_codigo_exemplo :
  ordenado_por ordem_do_codigo (calcular_probabilidades_poisson 1 1 2) /\
  ordenado_por ordem_do_codigo
    (calcular_probabilidades_dixon_coles 1 1 (- (1 / 10)) 2).
Proof.
  destruct (itens_em_ordem_do_codigo 1 1 (- (1 / 10)) 2) as [H1 H2]; [lra | lra |].
  split; [exact H1|]. apply H2.
  apply Rgt_not_eq. apply total_dixon_coles_pos; try lra; lia.
Defined.

(** ** The value calculator (C6, C10) *)

(** C6, as stated, fails in its last equation: [calcular_kelly(0.6, 2.5)]
    is [(1.5 * 0.6 - 0.4) / 1.5 = 0.5 / 1.5], one third, not [0.2 / 1.5];
    so it is on binary64 numbers, where the call gives
    0.33333333333333326 and [0.2 / 1.5] is 0.13333333333333333. *)
Lemma kelly_nao_e_0_2_sobre_1_5 :
  calcular_kelly (6 / 10) (25 / 10) 1 <> Retorna (2 / 10 / (15 / 10)) /\
  Binary64.calcular_kelly 0.6 2.5 1 <> Retorna (0.2 / 1.5)%float.
Proof.
  split.
  - unfold calcular_kelly.
    destruct (Rlt_dec (1 - 6 / 10) ((25 / 10 - 1) * (6 / 10))) as [_|Hn]; [|lra].
    destruct (Req_dec_T (25 / 10 - 1) 0) as [H0|_]; [lra|].
    intros [= H]. lra.
  - vm_compute. intros [= H].
Qed.

(** C6, amended: [calcular_valor_esperado(0.5, 2.0)] is exactly 0 and
    [calcular_kelly(0.5, 2.0)] is exactly 0, in exact arithmetic and on
    binary64 numbers; [calcular_kelly(0.6, 2.5)] is positive and equals
    [((2.5 - 1) * 0.6 - 0.4) / (2.5 - 1)], which is [0.5 / 1.5], one third
    (0.33333333333333326 on binary64 numbers). *)
Theorem calculadora_exemplos :
  calcular_valor_esperado (1 / 2) 2 = 0 /\
  calcular_kelly (1 / 2) 2 1 = Retorna 0 /\
  calcular_kelly (6 / 10) (25 / 10) 1 =
    Retorna (((25 / 10 - 1) * (6 / 10) - 4 / 10) / (25 / 10 - 1)) /\
  ((25 / 10 - 1) * (6 / 10) - 4 / 10) / (25 / 10 - 1) = 5 / 10 / (15 / 10) /\
  5 / 10 / (15 / 10) = 1 / 3 /\
  0 < 1 / 3 /\
  Binary64.calcular_valor_esperado 0.5 2 = 0%float /\
  Binary64.calcular_kelly 0.5 2 1 = Retorna 0%float /\
  Binary64.calcular_kelly 0.6 2.5 1 =
    Retorna (((2.5 - 1) * 0.6 - 0.4) / (2.5 - 1))%float /\
  (((2.5 - 1) * 0.6 - 0.4) / (2.5 - 1))%float = 0.33333333333333326%float /\
  PrimFloat.ltb 0 0.33333333333333326 = true.
Proof.
  repeat split; try (vm_compute; reflexivity); try lra.
  - unfold calcular_valor_esperado. lra.
  - unfold calcular_kelly.
    destruct (Rlt_dec (1 - 1 / 2) ((2 - 1) * (1 / 2))) as [H|_]; [lra | reflexivity].
  - unfold calcular_kelly.
    destruct (Rlt_dec (1 - 6 / 10) ((25 / 10 - 1) * (6 / 10))) as [_|Hn]; [|lra].
    destruct (Req_dec_T (25 / 10 - 1) 0) as [H0|_]; [lra|].
    f_equal. lra.
Qed.




(** ** The generator and the sampler *)

Lemma random_sample_spec (n : nat) :
  forall g : gerador,
    random_sample n g = (Retorna (map g (seq 0 n)), fun k => g (n + k)%nat).
Proof.
  induction n as [|n IH]; intros g; [reflexivity|].
  cbn [random_sample]. unfold bind at 1. unfold np_random_random at 1.
  unfold bind at 1. rewrite IH. unfold ret. cbn [seq map].
  rewrite <- seq_shift, map_map. reflexivity.
Qed.

Lemma cumsum_de_ultimo (p : list R) :
  p <> [] -> forall acc, exists r, rev (cumsum_de acc p) = (acc + soma p) :: r.
Proof.
  induction p as [|x p IH]; intros Hne acc; [contradiction|].
  destruct p as [|y p].
  - exists []. simpl. f_equal. lra.
  - destruct (IH ltac:(discriminate) (acc + x)) as [r Hr].
    exists (r ++ [acc + x]). cbn [cumsum_de rev] in *. rewrite Hr.
    cbn [app soma fold_right]. f_equal. simpl. lra.
Qed.

Lemma existsb_negativo (p : list R) :
  Forall (fun x => 0 <= x) p -> existsb (fun x => Rltb x 0) p = false.
Proof.
  induction 1 as [|x p Hx Hp IH]; simpl; [reflexivity|].
  rewrite IH. unfold Rltb. destruct (Rlt_dec x 0); [lra | reflexivity].
Qed.

Lemma atol_pos : 0 < atol.
Proof. unfold atol. apply Rinv_0_lt_compat. apply pow_lt. lra. Qed.

(** On probabilities that are not empty, not negative and sum to one, the
    checks of [np.random.choice] pass. *)
Lemma np_random_choice_valida (p : list R) (size : Z) (g : gerador) :
  p <> [] -> Forall (fun x => 0 <= x) p -> soma p = 1 ->
  np_random_choice (List.length p) size p g =
  if (size <? 0)%Z then (Levanta "ValueError", g)
  else
    (Retorna (map (searchsorted_right (map (fun c => c / (0 + soma p)) (cumsum p)))
                  (map g (seq 0 (Z.to_nat size)))),
     fun k => g (Z.to_nat size + k)%nat).
Proof.
  intros Hne Hpos Hsum. unfold np_random_choice.
  destruct p as [|x p'] eqn:Ep; [contradiction|]. rewrite <- Ep in *.
  replace (List.length p =? 0)%nat with false
    by (rewrite Ep; reflexivity).
  cbn [andb]. rewrite Nat.eqb_refl. cbn [negb].
  rewrite existsb_negativo by exact Hpos.
  replace (Rltb atol (Rabs (soma p - 1))) with false.
  2:{ unfold Rltb. rewrite Hsum. replace (1 - 1) with 0 by lra.
      rewrite Rabs_R0. pose proof atol_pos.
      destruct (Rlt_dec atol 0); [lra | reflexivity]. }
  destruct (cumsum_de_ultimo p Hne 0) as [r Hr].
  unfold cumsum at 1. rewrite Hr.
  destruct (size <? 0)%Z; [reflexivity|].
  unfold bind. rewrite random_sample_spec. reflexivity.
Qed.

Lemma poisson_ordenadas_validas (a b : R) (max_gols : Z) :
  0 < a -> 0 < b -> (0 <= max_gols)%Z ->
  let p := map snd (sorted_reverse (normalizadas (massa_poisson a b) max_gols)) in
  p <> [] /\ Forall (fun x => 0 < x) p /\ soma p = 1.
Proof.
  intros Ha Hb HN p.
  pose proof (total_poisson_pos a b max_gols Ha Hb HN) as Ht.
  repeat split.
  - intros Hnil.
    assert (Hin : In ((0, 0)%nat,
                      massa_poisson a b 0 0 / total_prob (massa_poisson a b) max_gols)
                     (sorted_reverse (normalizadas (massa_poisson a b) max_gols))).
    { apply In_ordenadas. cbn [fst snd]. split; [|reflexivity].
      apply In_grade. simpl. lia. }
    apply (in_map (@snd placar R)) in Hin. unfold p in Hnil. rewrite Hnil in Hin. destruct Hin.
  - apply Forall_forall. intros v Hv. apply in_map_iff in Hv.
    destruct Hv as [kv [<- Hkv]]. apply In_ordenadas in Hkv.
    destruct Hkv as [_ ->]. apply Rdiv_lt_0_compat; [|exact Ht].
    now apply massa_poisson_pos.
  - apply soma_ordenadas. lra.
Qed.

(** With [n_simulacoes <= 0] the sampling and counting part always raises,
    and never an exception of another class than these three. *)
Lemma amostrar_e_contar_nao_positivo (probs : dict) (n : Z) (g : gerador) :
  (n <= 0)%Z ->
  exists e g', amostrar_e_contar probs n g = (Levanta e, g') /\
    (e = "ValueError" \/ e = "IndexError" \/ e = "ZeroDivisionError").
Proof.
  intros Hn. unfold amostrar_e_contar, np_random_choice.
  unfold bind at 1.
  destruct (_ && _)%bool; [exists "ValueError", g; auto|].
  destruct (negb _); [exists "ValueError", g; auto|].
  destruct (existsb _ _); [exists "ValueError", g; auto|].
  destruct (Rltb atol _); [exists "ValueError", g; auto|].
  destruct (rev _) as [|ultimo r]; [exists "IndexError", g; auto|].
  destruct (n <? 0)%Z eqn:En; [exists "ValueError", g; auto|].
  assert (n = 0%Z) by lia. subst n.
  exists "ZeroDivisionError", g. split; [|auto]. reflexivity.
Qed.

(** On a valid distribution: [ZeroDivisionError] for zero samples,
    [ValueError] for a negative number of samples. *)
Lemma amostrar_e_contar_valida_nao_positivo (probs : dict) (n : Z) (g : gerador) :
  map snd probs <> [] -> Forall (fun x => 0 < x) (map snd probs) ->
  soma (map snd probs) = 1 ->
  amostrar_e_contar probs 0 g = (Levanta "ZeroDivisionError", g) /\
  ((n < 0)%Z -> amostrar_e_contar probs n g = (Levanta "ValueError", g)).
Proof.
  intros Hne Hpos Hsum.
  assert (Hpos' : Forall (fun x => 0 <= x) (map snd probs))
    by (eapply Forall_impl; [|exact Hpos]; intros x Hx; lra).
  assert (Hlen : List.length (map fst probs) = List.length (map snd probs))
    by now rewrite !length_map.
  split.
  - unfold amostrar_e_contar. unfold bind at 1. rewrite Hlen.
    rewrite np_random_choice_valida by assumption. reflexivity.
  - intros Hn. unfold amostrar_e_contar. unfold bind at 1. rewrite Hlen.
    rewrite np_random_choice_valida by assumption.
    replace (n <? 0)%Z with true by (symmetry; apply Z.ltb_lt; exact Hn).
    reflexivity.
Qed.

(** ** No validation of the parameters (C3) *)

(** C3, as stated, fails: no operation validates its parameters, and the
    class [InvalidParameter] is raised nowhere.  With [max_gols = -1] both
    ranges are empty and [calcular_probabilidades_poisson(1, 1, -1)] returns
    the empty dict; and
    [simular_monte_carlo(1, 1, 0, usar_dixon_coles=False)] samples nothing
    and then divides by zero, which raises [ZeroDivisionError]. *)
Lemma sem_InvalidParameter :
  calcular_probabilidades_poisson 1 1 (-1) = Retorna [] /\
  calcular_probabilidades_poisson 1 1 (-1) <> Levanta "InvalidParameter" /\
  fst (simular_monte_carlo 1 1 0 (- (1 / 10)) false (fun _ => 0))
    = Levanta "ZeroDivisionError" /\
  fst (simular_monte_carlo 1 1 0 (- (1 / 10)) false (fun _ => 0))
    <> Levanta "InvalidParameter".
Proof.
  assert (H1 : calcular_probabilidades_poisson 1 1 (-1) = Retorna [])
    by (apply finalizar_vazio; lia).
  assert (H2 : fst (simular_monte_carlo 1 1 0 (- (1 / 10)) false (fun _ => 0))
               = Levanta "ZeroDivisionError").
  { unfold simular_monte_carlo, calcular_probabilidades_poisson.
    rewrite finalizar_retorna
      by (apply Rgt_not_eq; apply total_poisson_pos; [lra | lra | lia]).
    destruct (poisson_ordenadas_validas 1 1 5) as [Hne [Hpos Hsum]];
      [lra | lra | lia |].
    destruct (amostrar_e_contar_valida_nao_positivo _ 0 (fun _ => 0) Hne Hpos Hsum)
      as [H0 _].
    now rewrite H0. }
  split; [|split; [|split]].
  - exact H1.
  - rewrite H1. discriminate.
  - exact H2.
  - rewrite H2. discriminate.
Qed.

(** C3, amended: the distribution builders never raise, whatever their
    arguments: with [max_gols < 0] they return the empty dict; and with
    [n_simulacoes <= 0] [simular_monte_carlo] raises [ValueError],
    [IndexError] or [ZeroDivisionError], never [InvalidParameter]: on the
    Poisson distribution of positive rates it raises [ZeroDivisionError] for
    [n_simulacoes = 0] and [ValueError] for [n_simulacoes < 0]. *)
Theorem sem_validacao (a b rho : R) (max_gols n : Z) (usar : bool) (g : gerador) :
  (max_gols < 0)%Z -> (n <= 0)%Z ->
  (forall a' b' rho' N classe,
     calcular_probabilidades_poisson a' b' N <> Levanta classe /\
     calcular_probabilidades_dixon_coles a' b' rho' N <> Levanta classe) /\
  calcular_probabilidades_poisson a b max_gols = Retorna [] /\
  calcular_probabilidades_dixon_coles a b rho max_gols = Retorna [] /\
  (exists e g', simular_monte_carlo a b n rho usar g = (Levanta e, g') /\
     (e = "ValueError" \/ e = "IndexError" \/ e = "ZeroDivisionError") /\
     e <> "InvalidParameter") /\
  (0 < a -> 0 < b ->
   simular_monte_carlo a b 0 rho false g = (Levanta "ZeroDivisionError", g) /\
   ((n < 0)%Z ->
    simular_monte_carlo a b n rho false g = (Levanta "ValueError", g))).
Proof.
  intros HN Hn. split; [|split; [|split; [|split]]].
  - intros a' b' rho' N classe. split; apply finalizar_nao_levanta.
  - now apply finalizar_vazio.
  - now apply finalizar_vazio.
  - assert (Hcl : forall e, e = "ValueError" \/ e = "IndexError" \/
                            e = "ZeroDivisionError" -> e <> "InvalidParameter").
    { intros e [-> | [-> | ->]]; discriminate. }
    unfold simular_monte_carlo.
    destruct (if usar then _ else _) as [probs | e |] eqn:Er.
    + destruct (amostrar_e_contar_nao_positivo probs n g Hn) as [e [g' [He Hc]]].
      exists e, g'. auto.
    + exfalso. destruct usar; now apply finalizar_nao_levanta in Er.
    + exists "ValueError", g. split; [reflexivity|]. auto.
  - intros Ha Hb. unfold simular_monte_carlo, calcular_probabilidades_poisson.
    rewrite finalizar_retorna
      by (apply Rgt_not_eq; apply total_poisson_pos; [lra | lra | lia]).
    destruct (poisson_ordenadas_validas a b 5) as [Hne [Hpos Hsum]];
      [lra | lra | lia |].
    now apply amostrar_e_contar_valida_nao_positivo.
Qed.

Lemma sem_validacao_exemplo :
  calcular_probabilidades_poisson 1 1 (-1) = Retorna [] /\
  simular_monte_carlo 1 1 0 (- (1 / 10)) false (fun _ => 0)
    = (Levanta "ZeroDivisionError", fun _ => 0).
Proof.
  destruct (sem_validacao 1 1 (- (1 / 10)) (-1) 0 false (fun _ => 0))
    as [_ [H1 [_ [_ H2]]]]; [lia | lia |].
  split; [exact H1|]. apply H2; lra.
Defined.

(** ** Dependence on the global generator (C4) *)

Lemma resumir_fst (c : contagem) (n : Z) (g g' : gerador) :
  fst (resumir c n g) = fst (resumir c n g').
Proof.
  unfold resumir, dividir_int, bind, ret, levantar.
  destruct (n =? 0)%Z; reflexivity.
Qed.

Lemma contar_spec (placares : list placar) (c : contagem) (idx : nat) (g : gerador) :
  contar placares c idx g =
  match nth_error placares idx with
  | None => (Levanta "IndexError", g)
  | Some (gols_casa, gols_visitante) =>
      (Retorna (atualizar c gols_casa gols_visitante (g 0%nat)), fun k => g (S k))
  end.
Proof.
  unfold contar. destruct (nth_error placares idx) as [[gc gv]|]; reflexivity.
Qed.

(** The counting loop reads one draw per sampled index and nothing else of
    the generator. *)
Lemma para_cada_contar_fst (placares : list placar) (l : list nat) :
  forall (c : contagem) (g1 g2 : gerador),
    mesmos_sorteios (List.length l) g1 g2 ->
    fst (para_cada l (contar placares) c g1) =
    fst (para_cada l (contar placares) c g2).
Proof.
  induction l as [|idx l IH]; intros c g1 g2 Hg; [reflexivity|].
  cbn [para_cada]. unfold bind. rewrite !contar_spec.
  destruct (nth_error placares idx) as [[gc gv]|]; [|reflexivity].
  rewrite (Hg 0%nat) by (simpl; lia).
  apply IH. intros k Hk. apply Hg. simpl. lia.
Qed.

Lemma map_mesmos_sorteios (n : nat) (g1 g2 : gerador) :
  mesmos_sorteios n g1 g2 -> map g1 (seq 0 n) = map g2 (seq 0 n).
Proof.
  intros Hg. apply map_ext_in. intros k Hk. apply Hg. apply in_seq in Hk. lia.
Qed.

(** [np.random.choice] either raises, whatever the generator state, or
    maps [size] successive draws through one table of cumulative sums. *)
Lemma np_random_choice_spec (a : nat) (size : Z) (p : list R) :
  (exists e, forall g, np_random_choice a size p g = (Levanta e, g)) \/
  (exists cdf, forall g,
     np_random_choice a size p g =
     (Retorna (map (searchsorted_right cdf) (map g (seq 0 (Z.to_nat size)))),
      fun k => g (Z.to_nat size + k)%nat)).
Proof.
  unfold np_random_choice.
  destruct (_ && _)%bool; [left; exists "ValueError"; reflexivity|].
  destruct (negb _); [left; exists "ValueError"; reflexivity|].
  destruct (existsb _ _); [left; exists "ValueError"; reflexivity|].
  destruct (Rltb atol _); [left; exists "ValueError"; reflexivity|].
  destruct (rev _) as [|ultimo r]; [left; exists "IndexError"; reflexivity|].
  destruct (size <? 0)%Z; [left; exists "ValueError"; reflexivity|].
  right. eexists. intros g. unfold bind. rewrite random_sample_spec. reflexivity.
Qed.

(** The sampling and counting part reads [2 * n_simulacoes] draws. *)
Lemma amostrar_e_contar_fst (probs : dict) (n : Z) (g1 g2 : gerador) :
  mesmos_sorteios (2 * Z.to_nat n) g1 g2 ->
  fst (amostrar_e_contar probs n g1) = fst (amostrar_e_contar probs n g2).
Proof.
  intros Hg. unfold amostrar_e_contar.
  destruct (np_random_choice_spec (List.length (map fst probs)) n (map snd probs))
    as [[e He] | [cdf Hc]].
  - unfold bind at 1 3. rewrite !He. reflexivity.
  - unfold bind at 1 3. rewrite !Hc.
    assert (Hg1 : mesmos_sorteios (Z.to_nat n) g1 g2)
      by (intros k Hk; apply Hg; lia).
    rewrite (map_mesmos_sorteios _ _ _ Hg1).
    set (resultados := map _ (map g2 _)).
    assert (Hlen : List.length resultados = Z.to_nat n)
      by (unfold resultados; now rewrite !length_map, length_seq).
    assert (Hg2 : mesmos_sorteios (List.length resultados)
                    (fun k => g1 (Z.to_nat n + k)%nat)
                    (fun k => g2 (Z.to_nat n + k)%nat)).
    { intros k Hk. apply Hg. lia. }
    pose proof (para_cada_contar_fst (map fst probs) resultados
                  (Contagem 0 0 0 0 0 0) _ _ Hg2) as Hfst.
    unfold bind.
    destruct (para_cada resultados _ _ (fun k => g1 _)) as [r1 g1'].
    destruct (para_cada resultados _ _ (fun k => g2 _)) as [r2 g2'].
    cbn [fst] in Hfst. subst r2.
    destruct r1 as [c | e |]; [apply resumir_fst | reflexivity | reflexivity].
Qed.

(** C4, amended: [simular_monte_carlo] has no randomness parameter, it draws
    from numpy's global generator; two calls with the same arguments, made
    in generator states that deliver the same first [2 * n_simulacoes]
    draws, give the same outcome (the same estimates, or the same
    exception). *)
Theorem simular_monte_carlo_mesmos_sorteios (a b : R) (n : Z) (rho : R)
    (usar : bool) (g1 g2 : gerador) :
  mesmos_sorteios (2 * Z.to_nat n) g1 g2 ->
  fst (simular_monte_carlo a b n rho usar g1) =
  fst (simular_monte_carlo a b n rho usar g2).
Proof.
  intros Hg. unfold simular_monte_carlo.
  destruct (if usar then _ else _) as [probs | e |]; try reflexivity.
  now apply amostrar_e_contar_fst.
Qed.

Lemma simular_monte_carlo_mesmos_sorteios_exemplo :
  fst (simular_monte_carlo 2 1 1 (- (1 / 10)) false (fun _ => 0)) =
  fst (simular_monte_carlo 2 1 1 (- (1 / 10)) false
         (fun k => if (k <? 2)%nat then 0 else 1 / 2)).
Proof.
  apply (simular_monte_carlo_mesmos_sorteios 2 1 1 (- (1 / 10)) false).
  intros k Hk. simpl in Hk. destruct k as [|[|k]]; [reflexivity | reflexivity | lia].
Defined.

(** One sample on a valid distribution whose first draw is 0: the sampled
    index is 0, the first scoreline of the dict. *)
Lemma uma_amostra (probs resto : dict) (gols_casa gols_visitante : nat) (v : R)
    (g : gerador) :
  probs = ((gols_casa, gols_visitante), v) :: resto ->
  Forall (fun x => 0 < x) (map snd probs) -> soma (map snd probs) = 1 ->
  g 0%nat = 0 ->
  fst (amostrar_e_contar probs 1 g) =
  fst (resumir (atualizar (Contagem 0 0 0 0 0 0) gols_casa gols_visitante (g 1%nat))
         1 g).
Proof.
  intros Hp Hpos Hsum Hg0.
  assert (Hpos' : Forall (fun x => 0 <= x) (map snd probs))
    by (eapply Forall_impl; [|exact Hpos]; intros x Hx; lra).
  assert (Hne : map snd probs <> []) by (rewrite Hp; discriminate).
  assert (Hlen : List.length (map fst probs) = List.length (map snd probs))
    by now rewrite !length_map.
  unfold amostrar_e_contar. unfold bind at 1. rewrite Hlen.
  rewrite np_random_choice_valida by assumption.
  change (Z.to_nat 1) with 1%nat. change (1 <? 0)%Z with false.
  cbn [Nat.add seq map].
  rewrite Hg0, Hsum.
  assert (Hidx : searchsorted_right
                   (map (fun c => c / (0 + 1)) (cumsum (map snd probs))) 0 = 0%nat).
  { rewrite Hp. cbn [map snd cumsum cumsum_de searchsorted_right].
    rewrite Hp in Hpos. cbn [map snd] in Hpos. apply Forall_inv in Hpos.
    destruct (Rlt_dec 0 ((0 + v) / (0 + 1))) as [_|Hn]; [reflexivity|].
    exfalso. apply Hn. apply Rdiv_lt_0_compat; lra. }
  rewrite Hidx. cbn [para_cada]. unfold bind at 1. unfold bind at 1.
  rewrite contar_spec. rewrite Hp at 1. cbn [map fst nth_error].
  unfold ret at 1. apply resumir_fst.
Qed.

Lemma primeiro_poisson_2_1 :
  exists gols_casa gols_visitante v resto,
    sorted_reverse (normalizadas (massa_poisson 2 1) 5) =
      ((gols_casa, gols_visitante), v) :: resto /\
    (0 < gols_casa + gols_visitante)%nat.
Proof.
  pose proof (total_poisson_pos 2 1 5 ltac:(lra) ltac:(lra) ltac:(lia)) as Ht.
  pose proof (ordenadas_ordem_do_codigo (massa_poisson 2 1) 5) as Hs.
  pose proof (In_ordenadas (massa_poisson 2 1) 5) as Hin.
  assert (Hg10 : In (1, 0)%nat (grade 5)) by (apply In_grade; simpl; lia).
  revert Ht Hs Hin.
  generalize (total_prob (massa_poisson 2 1) 5) as t.
  generalize (sorted_reverse (normalizadas (massa_poisson 2 1) 5)) as d.
  intros d t Ht Hs Hin.
  assert (Hm : massa_poisson 2 1 0 0 / t < massa_poisson 2 1 1 0 / t).
  { unfold massa_poisson. rewrite !poisson_pmf_0, poisson_pmf_1.
    pose proof (exp_pos (- (2))) as E2. pose proof (exp_pos (- (1))) as E1.
    pose proof (Rmult_lt_0_compat _ _ E2 E1) as E.
    apply Rmult_lt_compat_r; [now apply Rinv_0_lt_compat | lra]. }
  assert (H10 : In ((1, 0)%nat, massa_poisson 2 1 1 0 / t) d).
  { apply Hin. cbn [fst snd]. split; [exact Hg10 | reflexivity]. }
  destruct d as [|[[gc gv] v] resto]; [destruct H10|].
  exists gc, gv, v, resto. split; [reflexivity|].
  destruct gc as [|gc]; [|lia]. destruct gv as [|gv]; [|lia]. exfalso.
  assert (Hv : v = massa_poisson 2 1 0 0 / t).
  { assert (H00 : In ((0, 0)%nat, v) (((0, 0)%nat, v) :: resto)) by now left.
    apply Hin in H00. cbn [fst snd] in H00. tauto. }
  destruct H10 as [Heq|H10]; [discriminate Heq|].
  apply StronglySorted_inv in Hs. destruct Hs as [_ Hall].
  rewrite Forall_forall in Hall. specialize (Hall _ H10).
  unfold ordem_do_codigo, antes_na_grade in Hall. cbn [fst snd] in Hall.
  destruct Hall as [Hlt | [Heq _]]; lra.
Qed.

(** C4, as stated, fails: [simular_monte_carlo] takes no randomness source,
    it reads [np.random], and its result is not a function of its
    arguments.  The call [simular_monte_carlo(2, 1, 1,
    usar_dixon_coles=False)] samples the first scoreline of the dict, which
    is not 0-0, in both generator states below; where the next draw is 0 the
    first-half indicator is counted and [gol_1_tempo] is 1, where it is 0.5
    it is not and [gol_1_tempo] is 0. *)
Lemma simular_monte_carlo_depende_do_gerador :
  fst (simular_monte_carlo 2 1 1 (- (1 / 10)) false (fun _ => 0)) <>
  fst (simular_monte_carlo 2 1 1 (- (1 / 10)) false
         (fun k => if (k =? 1)%nat then 1 / 2 else 0)).
Proof.
  unfold simular_monte_carlo, calcular_probabilidades_poisson.
  rewrite finalizar_retorna
    by (apply Rgt_not_eq; apply total_poisson_pos; [lra | lra | lia]).
  destruct (poisson_ordenadas_validas 2 1 5) as [_ [Hpos Hsum]];
    [lra | lra | lia |].
  destruct primeiro_poisson_2_1 as [gc [gv [v [resto [Hd Hgols]]]]].
  rewrite (uma_amostra _ resto gc gv v (fun _ => 0) Hd Hpos Hsum eq_refl).
  rewrite (uma_amostra _ resto gc gv v
             (fun k => if (k =? 1)%nat then 1 / 2 else 0) Hd Hpos Hsum eq_refl).
  unfold resumir, dividir_int, bind, ret. cbn [Z.eqb fst].
  intros H. injection H as H.
  unfold atualizar in H. cbn [n_gol_1_tempo Nat.eqb] in H.
  replace (0 <? gc + gv)%nat with true in H
    by (symmetry; apply Nat.ltb_lt; exact Hgols).
  unfold Rltb in H.
  destruct (Rlt_dec 0 (1 / 2)) as [_|Hn]; [|lra].
  destruct (Rlt_dec (1 / 2) (1 / 2)) as [Hy|_]; [lra|].
  cbn [andb] in H. simpl in H. lra.
Qed.

(** ** More on the distribution builders *)

Lemma finalizar_retorna_inv (massa : nat -> nat -> R) (max_gols : Z) (d : dict) :
  finalizar (preencher massa max_gols) = Retorna d ->
  d = sorted_reverse (normalizadas massa max_gols).
Proof.
  intros Hd. destruct (Z_lt_le_dec max_gols 0) as [Hneg|Hpos].
  - rewrite finalizar_vazio in Hd by exact Hneg. injection Hd as <-.
    unfold normalizadas, celulas. now rewrite grade_vazia.
  - destruct (Req_dec_T (total_prob massa max_gols) 0) as [H0|Hne].
    + rewrite finalizar_nao_finito in Hd by assumption. discriminate.
    + rewrite finalizar_retorna in Hd by exact Hne. now injection Hd as <-.
Qed.




(** ** More on the Monte Carlo simulator *)

Lemma existsb_negativo_true (p : list R) (x : R) :
  In x p -> x < 0 -> existsb (fun x => Rltb x 0) p = true.
Proof.
  intros Hin Hx. apply existsb_exists. exists x. split; [exact Hin|].
  unfold Rltb. destruct (Rlt_dec x 0); [reflexivity | contradiction].
Qed.

(** A dict with a negative value is refused by [np.random.choice]. *)
Lemma amostrar_e_contar_negativa (probs : dict) (kv : placar * R) (n : Z)
    (g : gerador) :
  In kv probs -> snd kv < 0 ->
  amostrar_e_contar probs n g = (Levanta "ValueError", g).
Proof.
  intros Hin Hneg. unfold amostrar_e_contar, np_random_choice. unfold bind at 1.
  destruct (_ && _)%bool; [reflexivity|].
  rewrite !length_map, Nat.eqb_refl. cbn [negb].
  rewrite (existsb_negativo_true _ (snd kv)); [reflexivity | | exact Hneg].
  now apply in_map.
Qed.

Lemma searchsorted_right_cota (l : list R) (x u : R) :
  u < x -> (searchsorted_right (l ++ [x]) u < List.length (l ++ [x]))%nat.
Proof.
  intros Hu. induction l as [|y l IH]; simpl.
  - destruct (Rlt_dec u x); [lia | contradiction].
  - destruct (Rlt_dec u y); lia.
Qed.

Lemma length_cumsum_de (p : list R) :
  forall acc, List.length (cumsum_de acc p) = List.length p.
Proof. induction p as [|x p IH]; intros acc; simpl; [reflexivity | now rewrite IH]. Qed.

(** With valid probabilities, every draw below 1 is mapped to an index of
    the table. *)
Lemma indice_amostrado (p : list R) (u : R) :
  p <> [] -> soma p = 1 -> u < 1 ->
  Nat.lt (searchsorted_right (map (fun c => c / (0 + soma p)) (cumsum p)) u)
    (List.length p).
Proof.
  intros Hne Hsum Hu.
  destruct (cumsum_de_ultimo p Hne 0) as [r Hr]. fold (cumsum p) in Hr.
  assert (Hc : cumsum p = rev r ++ [0 + soma p]).
  { rewrite <- (rev_involutive (cumsum p)), Hr. reflexivity. }
  rewrite <- (length_cumsum_de p 0). fold (cumsum p).
  rewrite <- (length_map (fun c => c / (0 + soma p)) (cumsum p)).
  rewrite Hc, map_app. cbn [map].
  apply searchsorted_right_cota. rewrite Hsum.
  replace ((0 + 1) / (0 + 1)) with 1 by field. exact Hu.
Qed.

Lemma atualizar_contagem (c : contagem) (gols_casa gols_visitante : nat) (u : R) :
  let c' := atualizar c gols_casa gols_visitante u in
  (n_vitoria_casa c' + n_empate c' + n_vitoria_visitante c'
   = S (n_vitoria_casa c + n_empate c + n_vitoria_visitante c))%nat /\
  (n_over_2_5 c <= n_over_2_5 c' <= S (n_over_2_5 c))%nat /\
  (n_btts c <= n_btts c' <= S (n_btts c))%nat /\
  (n_gol_1_tempo c <= n_gol_1_tempo c' <= S (n_gol_1_tempo c))%nat.
Proof.
  unfold atualizar. cbn [n_vitoria_casa n_empate n_vitoria_visitante
                         n_over_2_5 n_btts n_gol_1_tempo].
  repeat split;
    repeat match goal with |- context [if ?x then _ else _] => destruct x end;
    lia.
Qed.

(** The counting loop over indices of the table: every sample is counted
    as exactly one of the three results, and one draw is read per sample. *)
Lemma para_cada_contar_ok (placares : list placar) (l : list nat) :
  Forall (fun idx => (idx < List.length placares)%nat) l ->
  forall (c : contagem) (g : gerador),
  exists c',
    para_cada l (contar placares) c g =
      (Retorna c', fun k => g (List.length l + k)%nat) /\
    (n_vitoria_casa c' + n_empate c' + n_vitoria_visitante c'
     = n_vitoria_casa c + n_empate c + n_vitoria_visitante c + List.length l)%nat /\
    (n_over_2_5 c' <= n_over_2_5 c + List.length l)%nat /\
    (n_btts c' <= n_btts c + List.length l)%nat /\
    (n_gol_1_tempo c' <= n_gol_1_tempo c + List.length l)%nat.
Proof.
  induction 1 as [|idx l Hidx Hl IH]; intros c g.
  - exists c. cbn [para_cada List.length]. unfold ret.
    repeat split; lia.
  - cbn [para_cada]. unfold bind. rewrite contar_spec.
    destruct (nth_error placares idx) as [[gc gv]|] eqn:En.
    2:{ apply nth_error_None in En. lia. }
    destruct (IH (atualizar c gc gv (g 0%nat)) (fun k => g (S k)))
      as [c' [Hrun [H1 [H2 [H3 H4]]]]].
    pose proof (atualizar_contagem c gc gv (g 0%nat)) as [A1 [A2 [A3 A4]]].
    exists c'. split.
    + rewrite Hrun. f_equal.
    + cbn [List.length]. repeat split; lia.
Qed.

Lemma proporcao_em_0_1 (k : nat) (n : Z) :
  (0 < n)%Z -> (k <= Z.to_nat n)%nat -> 0 <= INR k / IZR n <= 1.
Proof.
  intros Hn Hk. assert (Hn' : 0 < IZR n) by now apply IZR_lt.
  assert (Hk' : INR k <= IZR n).
  { rewrite INR_IZR_INZ. apply IZR_le. lia. }
  pose proof (pos_INR k). split.
  - apply Rmult_le_pos; [lra | left; now apply Rinv_0_lt_compat].
  - apply (Rmult_le_reg_r (IZR n)); [exact Hn'|].
    unfold Rdiv. rewrite Rmult_assoc, Rinv_l by lra. lra.
Qed.

(** On a valid distribution, with a positive number of simulations and
    draws below 1, the sampling and counting part returns. *)
Lemma amostrar_e_contar_ok (probs : dict) (n : Z) (g : gerador) :
  map snd probs <> [] -> Forall (fun x => 0 <= x) (map snd probs) ->
  soma (map snd probs) = 1 -> (0 < n)%Z -> (forall k, g k < 1) ->
  exists e g', amostrar_e_contar probs n g = (Retorna e, g').
Proof.
  intros Hne Hpos Hsum Hn Hg.
  assert (Hlen : List.length (map fst probs) = List.length (map snd probs))
    by now rewrite !length_map.
  unfold amostrar_e_contar. unfold bind at 1. rewrite Hlen.
  rewrite np_random_choice_valida by assumption.
  replace (n <? 0)%Z with false by (symmetry; apply Z.ltb_ge; lia).
  set (resultados := map _ (map g _)).
  assert (Hres : Forall (fun idx => (idx < List.length (map fst probs))%nat) resultados).
  { unfold resultados. rewrite Hlen. apply Forall_forall. intros idx Hin.
    apply in_map_iff in Hin. destruct Hin as [u [<- Hu]].
    apply in_map_iff in Hu. destruct Hu as [k [<- _]].
    now apply indice_amostrado. }
  destruct (para_cada_contar_ok _ _ Hres (Contagem 0 0 0 0 0 0)
              (fun k => g (Z.to_nat n + k)%nat)) as [c [Hrun _]].
  unfold bind at 1. rewrite Hrun.
  unfold resumir, dividir_int, bind, ret.
  replace (n =? 0)%Z with false by (symmetry; apply Z.eqb_neq; lia).
  eexists. eexists. reflexivity.
Qed.

(** ** The calculation methods of the analyser *)




(** ** More on the value calculator *)

(** X14: for a finite probability and a finite price, [calcular_kelly]
    raises [ZeroDivisionError] exactly when the price is 1 and the
    probability is above 1; it raises nothing else. *)
Theorem kelly_divisao_por_zero (probabilidade odd fracao : R) :
  (calcular_kelly probabilidade odd fracao = Levanta "ZeroDivisionError" <->
   odd = 1 /\ 1 < probabilidade) /\
  (forall classe, calcular_kelly probabilidade odd fracao = Levanta classe ->
                  classe = "ZeroDivisionError").
Proof.
  unfold calcular_kelly.
  destruct (Rlt_dec (1 - probabilidade) ((odd - 1) * probabilidade)) as [Hlt|Hge].
  - destruct (Req_dec_T (odd - 1) 0) as [H0|Hn0].
    + split; [|now intros classe [= <-]].
      split; [intros _|reflexivity].
      assert (odd = 1) by lra. subst odd. split; [reflexivity | lra].
    + split; [|discriminate]. split; [discriminate | intros [H1 _]; lra].
  - split; [|discriminate]. split; [discriminate|].
    intros [-> Hp]. exfalso. apply Hge. lra.
Qed.

(** X15: for a probability in [[0, 1]], [calcular_kelly] stakes nothing at a
    price that pays no net winnings: with [odd <= 1] it returns 0, whatever
    the fraction. *)
Theorem kelly_sem_ganho_liquido (probabilidade odd fracao : R) :
  0 <= probabilidade <= 1 -> odd <= 1 ->
  calcular_kelly probabilidade odd fracao = Retorna 0.
Proof.
  intros Hp Hodd. unfold calcular_kelly.
  destruct (Rlt_dec (1 - probabilidade) ((odd - 1) * probabilidade)) as [Hlt|_];
    [|reflexivity].
  exfalso. nra.
Qed.

Lemma kelly_sem_ganho_liquido_exemplo :
  calcular_kelly (3 / 5) (9 / 10) 1 = Retorna 0.
Proof. apply (kelly_sem_ganho_liquido (3 / 5) (9 / 10) 1); lra. Defined.

(** ** More on the returned dict and the simulator *)

(** X16: when a builder returns a dict of real values, its first item is a
    most probable scoreline: no other item has a larger value.  (It is the
    item [gerar_recomendacoes] reports as the most probable score.) *)
Theorem primeiro_item_domina (a b rho : R) (max_gols : Z)
    (k : placar) (v : R) (resto : dict) :
  calcular_probabilidades_poisson a b max_gols = Retorna ((k, v) :: resto) \/
  calcular_probabilidades_dixon_coles a b rho max_gols = Retorna ((k, v) :: resto) ->
  forall kv, In kv resto -> snd kv <= v.
Proof.
  intros Hd.
  assert (Hs : StronglySorted ordem_do_codigo ((k, v) :: resto)).
  { destruct Hd as [Hd|Hd]; apply finalizar_retorna_inv in Hd; rewrite Hd;
      apply ordenadas_ordem_do_codigo. }
  apply StronglySorted_inv in Hs. destruct Hs as [_ Hall].
  rewrite Forall_forall in Hall. intros kv Hkv. specialize (Hall kv Hkv).
  unfold ordem_do_codigo in Hall. cbn [fst snd] in Hall.
  destruct Hall as [Hlt | [Heq _]]; lra.
Qed.

Lemma primeiro_item_domina_exemplo :
  exists k v resto,
    calcular_probabilidades_poisson (9 / 5) (6 / 5) 5 = Retorna ((k, v) :: resto) /\
    forall kv, In kv resto -> snd kv <= v.
Proof.
  destruct (poisson_ordenadas_validas (9 / 5) (6 / 5) 5) as [Hne _];
    [lra | lra | lia |].
  assert (H : calcular_probabilidades_poisson (9 / 5) (6 / 5) 5 =
              Retorna (sorted_reverse (normalizadas (massa_poisson (9 / 5) (6 / 5)) 5))).
  { apply finalizar_retorna. apply Rgt_not_eq.
    apply total_poisson_pos; [lra | lra | lia]. }
  revert Hne H.
  generalize (sorted_reverse (normalizadas (massa_poisson (9 / 5) (6 / 5)) 5)).
  intros d Hne H. destruct d as [|[k v] resto]; [now contradiction Hne|].
  exists k, v, resto. split; [exact H|].
  exact (primeiro_item_domina (9 / 5) (6 / 5) 0 5 k v resto (or_introl H)).
Defined.

(** The sum of the four corrected masses does not depend on [rho], so on
    the grid of the simulator the Dixon-Coles total is the Poisson total. *)
Lemma total_dixon_coles_5 (a b rho : R) :
  total_prob (massa_dixon_coles a b rho) 5 = total_prob (massa_poisson a b) 5.
Proof.
  rewrite !total_prob_soma. unfold celulas.
  let g := eval vm_compute in (grade 5) in change (grade 5) with g.
  cbn [map fst snd soma fold_right]. unfold massa_dixon_coles, massa_poisson.
  rewrite !tau_tabela. cbn [tau_especificacao].
  rewrite !poisson_pmf_0, !poisson_pmf_1. ring.
Qed.

(** X17: [simular_monte_carlo] with [usar_dixon_coles=True] never samples
    from a dict that holds a negative value: when the Dixon-Coles builder
    returns one, the call raises [ValueError] (from [np.random.choice]) for
    every number of simulations and reads no draw. *)
Theorem simulacao_com_celula_negativa (a b rho : R) (n : Z) (g : gerador)
    (d : dict) (kv : placar * R) :
  calcular_probabilidades_dixon_coles a b rho 5 = Retorna d ->
  In kv d -> snd kv < 0 ->
  simular_monte_carlo a b n rho true g = (Levanta "ValueError", g).
Proof.
  intros Hd Hin Hneg. unfold simular_monte_carlo. rewrite Hd.
  now apply (amostrar_e_contar_negativa d kv).
Qed.

Lemma simulacao_com_celula_negativa_exemplo :
  simular_monte_carlo 1 1 1000 2 true (fun _ => 1 / 4)
  = (Levanta "ValueError", fun _ => 1 / 4).
Proof.
  pose proof (total_poisson_pos 1 1 5 ltac:(lra) ltac:(lra) ltac:(lia)) as Ht.
  rewrite <- (total_dixon_coles_5 1 1 2) in Ht.
  apply (simulacao_com_celula_negativa 1 1 2 1000 (fun _ => 1 / 4)
           (sorted_reverse (normalizadas (massa_dixon_coles 1 1 2) 5))
           ((0, 0)%nat, massa_dixon_coles 1 1 2 0 0
                        / total_prob (massa_dixon_coles 1 1 2) 5)).
  - apply finalizar_retorna. lra.
  - apply In_ordenadas. cbn [fst snd]. split; [|reflexivity].
    apply In_grade. simpl. lia.
  - cbn [snd]. unfold Rdiv.
    assert (Hm : massa_dixon_coles 1 1 2 0 0 < 0).
    { unfold massa_dixon_coles. rewrite tau_tabela. cbn [tau_especificacao].
      rewrite poisson_pmf_0. pose proof (exp_pos (- (1))). nra. }
    pose proof (Rinv_0_lt_compat _ Ht). nra.
Defined.

Lemma np_random_choice_retorna (a : nat) (size : Z) (p : list R)
    (g g' : gerador) (rs : list nat) :
  np_random_choice a size p g = (Retorna rs, g') ->
  (0 <= size)%Z /\ List.length rs = Z.to_nat size /\
  g' = (fun k => g (Z.to_nat size + k)%nat).
Proof.
  unfold np_random_choice, levantar.
  destruct (_ && _)%bool; [discriminate|].
  destruct (negb _); [discriminate|].
  destruct (existsb _ _); [discriminate|].
  destruct (Rltb atol _); [discriminate|].
  destruct (rev _) as [|ultimo r]; [discriminate|].
  destruct (size <? 0)%Z eqn:E; [discriminate|].
  unfold bind. rewrite random_sample_spec. unfold ret.
  intros [= <- <-]. apply Z.ltb_ge in E.
  split; [exact E|]. split; [|reflexivity].
  now rewrite !length_map, length_seq.
Qed.

Lemma atualizar_cotas (c : contagem) (gols_casa gols_visitante : nat) (u : R) :
  let c' := atualizar c gols_casa gols_visitante u in
  (n_vitoria_casa c' <= S (n_vitoria_casa c))%nat /\
  (n_empate c' <= S (n_empate c))%nat /\
  (n_vitoria_visitante c' <= S (n_vitoria_visitante c))%nat.
Proof.
  unfold atualizar. cbn [n_vitoria_casa n_empate n_vitoria_visitante].
  repeat split;
    repeat match goal with |- context [if ?x then _ else _] => destruct x end;
    lia.
Qed.

Lemma para_cada_contar_inv (placares : list placar) (l : list nat) :
  forall (c c' : contagem) (g g' : gerador),
    para_cada l (contar placares) c g = (Retorna c', g') ->
    g' = (fun k => g (List.length l + k)%nat) /\
    (n_vitoria_casa c' <= n_vitoria_casa c + List.length l)%nat /\
    (n_empate c' <= n_empate c + List.length l)%nat /\
    (n_vitoria_visitante c' <= n_vitoria_visitante c + List.length l)%nat /\
    (n_over_2_5 c' <= n_over_2_5 c + List.length l)%nat /\
    (n_btts c' <= n_btts c + List.length l)%nat /\
    (n_gol_1_tempo c' <= n_gol_1_tempo c + List.length l)%nat.
Proof.
  induction l as [|idx l IH]; intros c c' g g'.
  - cbn [para_cada List.length]. unfold ret. intros [= <- <-].
    split; [reflexivity|]. repeat split; lia.
  - cbn [para_cada]. unfold bind. rewrite contar_spec.
    destruct (nth_error placares idx) as [[gc gv]|]; [|discriminate].
    intros H. apply IH in H. destruct H as [Hg [H1 [H2 [H3 [H4 [H5 H6]]]]]].
    split; [rewrite Hg; reflexivity|].
    pose proof (atualizar_contagem c gc gv (g 0%nat)) as [_ [A2 [A3 A4]]].
    pose proof (atualizar_cotas c gc gv (g 0%nat)) as [B1 [B2 B3]].
    cbv zeta in A2, A3, A4, B1, B2, B3. cbn [List.length].
    repeat split; lia.
Qed.

(** X18: whenever [simular_monte_carlo] returns, the number of simulations
    is positive, exactly [2 * n_simulacoes] draws of the generator have been
    read, and each of the six estimates lies in [[0, 1]]. *)
Theorem simular_monte_carlo_quando_retorna (a b : R) (n : Z) (rho : R)
    (usar : bool) (g g' : gerador) (e : estimativas) :
  simular_monte_carlo a b n rho usar g = (Retorna e, g') ->
  (0 < n)%Z /\
  (forall k, g' k = g (2 * Z.to_nat n + k)%nat) /\
  0 <= vitoria_casa e <= 1 /\ 0 <= empate e <= 1 /\
  0 <= vitoria_visitante e <= 1 /\ 0 <= over_2_5 e <= 1 /\
  0 <= btts e <= 1 /\ 0 <= gol_1_tempo e <= 1.
Proof.
  unfold simular_monte_carlo, levantar.
  destruct (if usar then _ else _) as [probs | classe |]; try discriminate.
  unfold amostrar_e_contar. unfold bind at 1.
  destruct (np_random_choice _ n _ g) as [[rs | classe |] g1] eqn:Ec;
    try discriminate.
  apply np_random_choice_retorna in Ec. destruct Ec as [Hn [Hlen Hg1]].
  unfold bind at 1.
  destruct (para_cada rs _ _ g1) as [[c | classe |] g2] eqn:Ep; try discriminate.
  apply para_cada_contar_inv in Ep.
  destruct Ep as [Hg2 [H1 [H2 [H3 [H4 [H5 H6]]]]]].
  cbn [n_vitoria_casa n_empate n_vitoria_visitante n_over_2_5 n_btts
       n_gol_1_tempo] in H1, H2, H3, H4, H5, H6.
  rewrite Hlen in *.
  unfold resumir, dividir_int, bind, ret, levantar.
  destruct (n =? 0)%Z eqn:E0; [discriminate|].
  apply Z.eqb_neq in E0. intros [= <- <-].
  assert (Hpos : (0 < n)%Z) by lia.
  cbn [vitoria_casa empate vitoria_visitante over_2_5 btts gol_1_tempo].
  split; [exact Hpos|]. split.
  - intros k. rewrite Hg2, Hg1. f_equal. lia.
  - repeat split; apply proporcao_em_0_1; trivial; lia.
Qed.

Lemma simular_monte_carlo_quando_retorna_exemplo :
  exists e g',
    simular_monte_carlo (9 / 5) (6 / 5) 10000 (- (1 / 10)) false (fun _ => 1 / 4)
      = (Retorna e, g') /\
    0 <= vitoria_casa e <= 1 /\
    g' 0%nat = (fun _ : nat => 1 / 4) (2 * Z.to_nat 10000 + 0)%nat.
Proof.
  destruct (poisson_ordenadas_validas (9 / 5) (6 / 5) 5) as [Hne [Hpos Hsum]];
    [lra | lra | lia |].
  assert (Hpos' : Forall (fun x => 0 <= x)
                    (map snd (sorted_reverse
                                (normalizadas (massa_poisson (9 / 5) (6 / 5)) 5))))
    by (eapply Forall_impl; [|exact Hpos]; intros x Hx; lra).
  destruct (amostrar_e_contar_ok _ 10000 (fun _ => 1 / 4) Hne Hpos' Hsum)
    as [e [g' Hrun]]; [lia | intros k; lra |].
  assert (Hsim : simular_monte_carlo (9 / 5) (6 / 5) 10000 (- (1 / 10)) false
                   (fun _ => 1 / 4) = (Retorna e, g')).
  { unfold simular_monte_carlo, calcular_probabilidades_poisson.
    rewrite finalizar_retorna
      by (apply Rgt_not_eq; apply total_poisson_pos; [lra | lra | lia]).
    exact Hrun. }
  exists e, g'. split; [exact Hsim|].
  destruct (simular_monte_carlo_quando_retorna _ _ _ _ _ _ _ _ Hsim)
    as [_ [Hg [Hv _]]].
  split; [exact Hv | apply Hg].
Defined.
